(** * bt: a leeching BitTorrent client -- piece model, download manager,
      peer stream framer and peer session.

    Shallow embedding of [bt/client.py] and [bt/protocol.py].  Python
    integers are [Z], byte strings are [list byte], the [peers] dictionary
    is a [gmap], Python lists are lists.  Code that can raise is embedded
    with an explicit result type; code that mutates the manager threads
    the manager record and keeps the mutations done before a raise. *)

From Stdlib Require Import ZArith List Lia Bool String Ascii.
From Stdlib Require Import Strings.Byte Sorting.Sorted.
From stdpp Require Import base tactics option list gmap strings.

Import ListNotations.
Local Open Scope Z_scope.

(** ** Byte strings *)

Abbreviation bytes := (list byte).

Definition byte_to_Z (b : byte) : Z := Z.of_N (Byte.to_N b).

Definition byte_of_Z (z : Z) : byte :=
  match Byte.of_N (Z.to_N (z mod 256)) with
  | Some b => b
  | None => x00
  end.

#[global] Instance byte_eq_decision : EqDecision byte := Byte.byte_eq_dec.

(** [len(b)] as a Python integer. *)
Definition len {A} (l : list A) : Z := Z.of_nat (length l).

(** ** Python exceptions and results *)

Inductive exn : Type :=
| NameError (name : string)
| AttributeError (attr : string)
| TypeError
| IndexError
| ValueError
| OSError
| ZeroDivisionError
| KeyError
| MalformedMessage.

Inductive result (A : Type) : Type :=
| Ok (a : A)
| Raise (e : exn).
Arguments Ok {A} a.
Arguments Raise {A} e.

Definition rbind {A B} (r : result A) (k : A -> result B) : result B :=
  match r with
  | Ok a => k a
  | Raise e => Raise e
  end.

Declare Scope py_scope.
Delimit Scope py_scope with py.
Notation "'let?' x ':=' r 'in' k" := (rbind r (fun x => k))
  (at level 10, x pattern, r at level 100, k at level 200) : py_scope.
Local Open Scope py_scope.

(** ** hashlib.sha1

    The standard function (FIPS 180-4) on 32-bit words kept in [Z] with
    the wrap-around written out. *)

Module SHA1.

Definition w32 (x : Z) : Z := x mod 2 ^ 32.

Definition rotl (n x : Z) : Z :=
  w32 (Z.lor (Z.shiftl x n) (Z.shiftr x (32 - n))).

Definition lnot32 (x : Z) : Z := Z.lxor x (2 ^ 32 - 1).

(** message || 0x80 || 0* || 64-bit big-endian bit length *)
Definition be_bytes (width : nat) (x : Z) : bytes :=
  map (fun i => byte_of_Z (Z.shiftr x (8 * Z.of_nat (width - 1 - i))))
      (seq 0 width).

Definition pad (msg : bytes) : bytes :=
  let l := len msg in
  let zeros := Z.to_nat ((55 - l) mod 64) in
  msg ++ [byte_of_Z 128] ++ repeat x00 zeros ++ be_bytes 8 (8 * l).

Fixpoint be_word (bs : bytes) : Z :=
  match bs with
  | [] => 0
  | b :: r => byte_to_Z b * 2 ^ (8 * len r) + be_word r
  end.

(** split into consecutive groups of [n] items *)
Fixpoint chunks {A} (fuel n : nat) (l : list A) : list (list A) :=
  match fuel with
  | O => []
  | S fuel' =>
      match l with
      | [] => []
      | _ => take n l :: chunks fuel' n (drop n l)
      end
  end.

Definition words_of (block : bytes) : list Z :=
  map be_word (chunks 16 4 block).

(** The message schedule, latest word first. *)
Fixpoint extend (n : nat) (rw : list Z) : list Z :=
  match n with
  | O => rw
  | S n' =>
      let x := Z.lxor (Z.lxor (nth 2 rw 0) (nth 7 rw 0))
                      (Z.lxor (nth 13 rw 0) (nth 15 rw 0)) in
      extend n' (rotl 1 x :: rw)
  end.

Definition schedule (block : bytes) : list Z :=
  rev (extend 64 (rev (words_of block))).

Definition f_k (i : nat) (b c d : Z) : Z * Z :=
  if (i <? 20)%nat then
    (Z.lor (Z.land b c) (Z.land (lnot32 b) d), 1518500249)
  else if (i <? 40)%nat then
    (Z.lxor (Z.lxor b c) d, 1859775393)
  else if (i <? 60)%nat then
    (Z.lor (Z.lor (Z.land b c) (Z.land b d)) (Z.land c d), 2400959708)
  else
    (Z.lxor (Z.lxor b c) d, 3395469782).

Definition state : Type := Z * Z * Z * Z * Z.

Fixpoint rounds (i : nat) (ws : list Z) (s : state) : state :=
  match ws with
  | [] => s
  | w :: ws' =>
      let '(a, b, c, d, e) := s in
      let '(f, k) := f_k i b c d in
      let t := w32 (rotl 5 a + f + e + k + w) in
      rounds (S i) ws' (t, a, rotl 30 b, c, d)
  end.

Definition compress (s : state) (block : bytes) : state :=
  let '(h0, h1, h2, h3, h4) := s in
  let '(a, b, c, d, e) := rounds 0 (schedule block) s in
  (w32 (h0 + a), w32 (h1 + b), w32 (h2 + c), w32 (h3 + d), w32 (h4 + e)).

Definition init : state :=
  (1732584193, 4023233417, 2562383102, 271733878, 3285377520).

(** [sha1(msg).digest()]: 20 bytes. *)
Definition digest (msg : bytes) : bytes :=
  let p := pad msg in
  let '(h0, h1, h2, h3, h4) :=
    fold_left compress (chunks (length p) 64 p) init in
  be_bytes 4 h0 ++ be_bytes 4 h1 ++ be_bytes 4 h2
    ++ be_bytes 4 h3 ++ be_bytes 4 h4.

Definition hex_digit (n : Z) : byte :=
  if n <? 10 then byte_of_Z (48 + n) else byte_of_Z (87 + n).

(** [bytearray(sha1(msg).hexdigest(), 'utf-8')]: the 40 ASCII characters
    of the lower-case hexadecimal rendering of the digest. *)
Definition hexdigest (msg : bytes) : bytes :=
  flat_map (fun b => [hex_digit (byte_to_Z b / 16);
                      hex_digit (byte_to_Z b mod 16)])
           (digest msg).

End SHA1.

(** ** Python list helpers *)

(** [l[i]] on a sequence: negative indices count from the end, an index
    out of range raises [IndexError]. *)
Definition getitem {A} (l : list A) (i : Z) : result A :=
  let j := if i <? 0 then i + len l else i in
  if (0 <=? j) && (j <? len l) then
    match l !! Z.to_nat j with
    | Some x => Ok x
    | None => Raise IndexError
    end
  else Raise IndexError.

(** Apply [f] to the first item that satisfies [P]: the in-place update of
    the object that [[x for x in l if P(x)][0]] denotes. *)
Fixpoint update_first {A} (P : A -> bool) (f : A -> A) (l : list A) : list A :=
  match l with
  | [] => []
  | x :: r => if P x then f x :: r else x :: update_first P f r
  end.

(** Drop the first item that satisfies [P]. *)
Fixpoint remove_first {A} (P : A -> bool) (l : list A) : list A :=
  match l with
  | [] => []
  | x :: r => if P x then r else x :: remove_first P r
  end.

(** [range(n)] *)
Definition range (n : Z) : list Z := map Z.of_nat (seq 0 (Z.to_nat n)).

(** [math.ceil(a / b)] for integers [a], [b]; the float quotient is exact
    for the divisor [2 ** 14] and dividends below [2 ** 53]. *)
Definition ceil_div (a b : Z) : Z := - ((- a) / b).

(** ** Block and Piece (client.py, lines 27-85)

    [Block] and [Piece] define neither [__bool__] nor [__len__], and
    their base [ReprMixin] (module [mixins], not among the sources) is
    taken to add only a [__repr__]: an instance is true where the code
    tests [if block:] or [if piece:], and only [None] is false. *)

Inductive BlockStatus : Type := Missing | Pending | Retrieved.

#[global] Instance BlockStatus_eq_dec : EqDecision BlockStatus.
Proof. solve_decision. Defined.

Module Block.

Record t : Type := mk {
  piece : Z;
  offset : Z;
  length : Z;
  status : BlockStatus;
  data : option bytes
}.

(** [Block(piece, offset, length)] *)
Definition init (piece offset length : Z) : t :=
  mk piece offset length Missing None.

Definition set_status (s : BlockStatus) (b : t) : t :=
  mk (piece b) (offset b) (length b) s (data b).

Definition retrieve (d : bytes) (b : t) : t :=
  mk (piece b) (offset b) (length b) Retrieved (Some d).

Definition is_missing (b : t) : bool := bool_decide (status b = Missing).
Definition is_retrieved (b : t) : bool := bool_decide (status b = Retrieved).
Definition at_offset (o : Z) (b : t) : bool := offset b =? o.

End Block.

Module Piece.

Record t : Type := mk {
  index : Z;
  blocks : list Block.t;
  hash : bytes
}.

Definition with_blocks (bs : list Block.t) (p : t) : t :=
  mk (index p) bs (hash p).

Definition reset (p : t) : t :=
  with_blocks (map (Block.set_status Missing) (blocks p)) p.

(** The first Missing block is marked Pending and returned. *)
Definition next_request (p : t) : option Block.t * t :=
  match filter (fun b => Block.is_missing b = true) (blocks p) with
  | b :: _ =>
      (Some (Block.set_status Pending b),
       with_blocks
         (update_first Block.is_missing (Block.set_status Pending) (blocks p))
         p)
  | [] => (None, p)
  end.

(** The [else] branch names [logging], which client.py never imports. *)
Definition block_received (o : Z) (d : bytes) (p : t) : result t :=
  match filter (fun b => Block.at_offset o b = true) (blocks p) with
  | _ :: _ =>
      Ok (with_blocks
            (update_first (Block.at_offset o) (Block.retrieve d) (blocks p))
            p)
  | [] => Raise (NameError "logging")
  end.

(** [len(blocks) is 0]: on the small integers identity is equality. *)
Definition is_complete (p : t) : bool :=
  bool_decide
    (length (filter (fun b => Block.is_retrieved b = false) (blocks p)) = 0%nat).

(** [sorted(self.blocks, key=lambda b: b.offset)]: a stable sort. *)
Fixpoint insert_by_offset (b : Block.t) (l : list Block.t) : list Block.t :=
  match l with
  | [] => [b]
  | x :: r =>
      if Block.offset b <=? Block.offset x then b :: x :: r
      else x :: insert_by_offset b r
  end.

Definition sorted_blocks (p : t) : list Block.t :=
  foldr insert_by_offset [] (blocks p).

(** [b''.join(...)] raises [TypeError] on an item that is [None]. *)
Fixpoint join (ds : list (option bytes)) : result bytes :=
  match ds with
  | [] => Ok []
  | Some d :: r => let? rest := join r in Ok (d ++ rest)
  | None :: _ => Raise TypeError
  end.

Definition data (p : t) : result bytes :=
  join (map Block.data (sorted_blocks p)).

Definition is_hash_matching (p : t) : result bool :=
  let? d := data p in
  Ok (bool_decide (hash p = SHA1.hexdigest d)).

End Piece.

(** ** The metainfo, as the manager reads it (torrent.info) *)

Module Info.
Record t : Type := mk {
  pieces : list bytes;
  piece_length : Z;
  length : Z
}.
End Info.

(** Modelled from the spec: [REQUEST_SIZE] of module [message], which is
    not among the sources; the block size is [2^14 = 16384]. *)
Definition REQUEST_SIZE : Z := 2 ^ 14.

(** Modelled from the spec: the bitfield a peer advertises ([message] is
    not among the sources): one bit per piece, read by indexing. *)
Abbreviation bitfield := (list bool).

Module PendingRequest.
(** [namedtuple('PendingRequest', ['block', 'added'])]; the block is
    the object shared with its piece, of which only the fields fixed at
    construction ([piece], [offset], [length]) are read through here. *)
Record t : Type := mk {
  block : Block.t;
  added : Z
}.
End PendingRequest.

(** ** DownloadManager (client.py, lines 88-251) *)

Module DownloadManager.

Record t : Type := mk {
  torrent : Info.t;
  total_pieces : Z;
  peers : gmap string bitfield;
  pending_blocks : list PendingRequest.t;
  ongoing_pieces : list Piece.t;
  have_pieces : list Piece.t;
  missing_pieces : list Piece.t;
  (** contents of the file behind [fd] *)
  file : bytes;
  (** the instance attribute [max_pending_time]: the class never assigns
      it, so it is [None] (absent) unless set from outside *)
  max_pending_time : option Z
}.

Definition set_peers v (m : t) : t :=
  mk (torrent m) (total_pieces m) v (pending_blocks m) (ongoing_pieces m)
     (have_pieces m) (missing_pieces m) (file m) (max_pending_time m).
Definition set_pending_blocks v (m : t) : t :=
  mk (torrent m) (total_pieces m) (peers m) v (ongoing_pieces m)
     (have_pieces m) (missing_pieces m) (file m) (max_pending_time m).
Definition set_ongoing_pieces v (m : t) : t :=
  mk (torrent m) (total_pieces m) (peers m) (pending_blocks m) v
     (have_pieces m) (missing_pieces m) (file m) (max_pending_time m).
Definition set_missing_pieces v (m : t) : t :=
  mk (torrent m) (total_pieces m) (peers m) (pending_blocks m)
     (ongoing_pieces m) (have_pieces m) v (file m) (max_pending_time m).
Definition set_file v (m : t) : t :=
  mk (torrent m) (total_pieces m) (peers m) (pending_blocks m)
     (ongoing_pieces m) (have_pieces m) (missing_pieces m) v
     (max_pending_time m).
(** [manager.max_pending_time = v], assigned from outside the class *)
Definition set_max_pending_time v (m : t) : t :=
  mk (torrent m) (total_pieces m) (peers m) (pending_blocks m)
     (ongoing_pieces m) (have_pieces m) (missing_pieces m) (file m) v.

(** *** make_pieces *)

Definition full_blocks (index n : Z) : list Block.t :=
  map (fun offset => Block.init index (offset * REQUEST_SIZE) REQUEST_SIZE)
      (range n).

(** Blocks of the piece at [index].  In the last piece a short tail
    reads [blocks[-1]] and then reaches [block[-1] = last_block], where
    no name [block] is bound. *)
Definition piece_blocks (info : Info.t) (tot total_piece_blocks index : Z)
  : result (list Block.t) :=
  if index <? tot - 1 then Ok (full_blocks index total_piece_blocks)
  else
    if Info.piece_length info =? 0 then Raise ZeroDivisionError
    else
      let last_length := Info.length info mod Info.piece_length info in
      let num_blocks := ceil_div last_length REQUEST_SIZE in
      let blocks := full_blocks index num_blocks in
      if last_length mod REQUEST_SIZE >? 0 then
        match blocks with
        | [] => Raise IndexError
        | _ => Raise (NameError "block")
        end
      else Ok blocks.

Fixpoint make_pieces_loop (info : Info.t) (tot total_piece_blocks index : Z)
    (hashes : list bytes) (pieces : list Piece.t) : result (list Piece.t) :=
  match hashes with
  | [] => Ok pieces
  | hash_value :: rest =>
      let? blocks := piece_blocks info tot total_piece_blocks index in
      make_pieces_loop info tot total_piece_blocks (index + 1) rest
                       (pieces ++ [Piece.mk index blocks hash_value])
  end.

Definition make_pieces (info : Info.t) : result (list Piece.t) :=
  let tot := len (Info.pieces info) in
  let total_piece_blocks := ceil_div (Info.piece_length info) REQUEST_SIZE in
  make_pieces_loop info tot total_piece_blocks 0 (Info.pieces info) [].

(** [__init__]; [existing] is what the file named [torrent.name] holds
    when it is opened (created empty if absent). *)
Definition init (info : Info.t) (existing : bytes) : result t :=
  let? missing := make_pieces info in
  Ok (mk info (len (Info.pieces info)) ∅ [] [] [] missing existing None).

Definition complete (m : t) : bool :=
  len (have_pieces m) =? total_pieces m.

Definition bytes_uploaded (m : t) : Z := 0.

Definition bytes_downloaded (m : t) : Z :=
  len (have_pieces m) * Info.piece_length (torrent m).

(** *** File writes *)

(** [os.lseek(fd, pos, SEEK_SET); os.write(fd, d)]: a hole before [pos]
    reads as zero bytes; a negative position is refused. *)
Definition pwrite (f : bytes) (pos : Z) (d : bytes) : bytes :=
  let n := Z.to_nat pos in
  take n (f ++ repeat x00 (n - length f)) ++ d ++ drop (n + length d) f.

Definition _write (p : Piece.t) (m : t) : result t :=
  let pos := Piece.index p * Info.piece_length (torrent m) in
  if pos <? 0 then Raise OSError
  else
    let? d := Piece.data p in
    Ok (set_file (pwrite (file m) pos d) m).

(** *** on_block_complete *)

Definition is_request_for (piece_index block_offset : Z)
    (r : PendingRequest.t) : bool :=
  (Block.piece (PendingRequest.block r) =? piece_index)
  && (Block.offset (PendingRequest.block r) =? block_offset).

Definition remove_from_pending_pieces (piece_index block_offset : Z) (m : t) : t :=
  set_pending_blocks
    (remove_first (is_request_for piece_index block_offset) (pending_blocks m)) m.

Definition has_index (piece_index : Z) (p : Piece.t) : bool :=
  Piece.index p =? piece_index.

(** Returns the piece when it was completed, verified and written. *)
Definition update_ongoing_pieces (piece_index block_offset : Z) (d : bytes)
    (m : t) : result (option Piece.t) * t :=
  match filter (fun p => has_index piece_index p = true) (ongoing_pieces m) with
  | piece :: _ =>
      match Piece.block_received block_offset d piece with
      | Raise e => (Raise e, m)
      | Ok piece' =>
          let m1 :=
            set_ongoing_pieces
              (update_first (has_index piece_index) (fun _ => piece')
                            (ongoing_pieces m)) m in
          if Piece.is_complete piece' then
            match Piece.is_hash_matching piece' with
            | Raise e => (Raise e, m1)
            | Ok true =>
                match _write piece' m1 with
                | Raise e => (Raise e, m1)
                | Ok m2 =>
                    (Ok (Some piece'),
                     set_ongoing_pieces
                       (remove_first (has_index piece_index)
                                     (ongoing_pieces m2)) m2)
                end
            | Ok false =>
                (Ok None,
                 set_ongoing_pieces
                   (update_first (has_index piece_index)
                                 (fun _ => Piece.reset piece')
                                 (ongoing_pieces m1)) m1)
            end
          else (Ok None, m1)
      end
  | [] => (Ok None, m)
  end.

(** The manager defines [update_have_piece(self, piece)] only; the call
    on line 128 names [update_have_pieces]. *)
Definition on_block_complete (peer_id : string)
    (piece_index block_offset : Z) (d : bytes) (m : t) : result unit * t :=
  let m1 := remove_from_pending_pieces piece_index block_offset m in
  match update_ongoing_pieces piece_index block_offset d m1 with
  | (Raise e, m2) => (Raise e, m2)
  | (Ok (Some _), m2) => (Raise (AttributeError "update_have_pieces"), m2)
  | (Ok None, m2) => (Ok tt, m2)
  end.

(** *** add_peer *)

Definition add_peer (peer_id : string) (bf : bitfield) (m : t) : t :=
  set_peers (<[peer_id := bf]> (peers m)) m.

(** *** next_request *)

Definition peer_bitfield (peer_id : string) (m : t) : result bitfield :=
  match peers m !! peer_id with
  | Some bf => Ok bf
  | None => Raise KeyError
  end.

(** The scan of [_expired_request].  Past the bitfield test the code
    reads [self.max_pending_time]; when that attribute exists and the
    request is old, the next statement names [logging], which client.py
    never imports. *)
Fixpoint expired_scan (bf : bitfield) (mpt : option Z) (current : Z)
    (reqs : list PendingRequest.t) : result (option Block.t) :=
  match reqs with
  | [] => Ok None
  | request :: rest =>
      let? has := getitem bf (Block.piece (PendingRequest.block request)) in
      if has then
        match mpt with
        | None => Raise (AttributeError "max_pending_time")
        | Some max_pending =>
            if PendingRequest.added request + max_pending <? current
            then Raise (NameError "logging")
            else expired_scan bf mpt current rest
        end
      else expired_scan bf mpt current rest
  end.

Definition _expired_request (now : Z) (peer_id : string) (m : t)
  : result (option Block.t) :=
  let? bf := peer_bitfield peer_id m in
  expired_scan bf (max_pending_time m) now (pending_blocks m).

(** The scan of [_next_ongoing]: the block found and the list with its
    piece updated in place. *)
Fixpoint ongoing_scan (bf : bitfield) (ps : list Piece.t)
  : result (option (Block.t * list Piece.t)) :=
  match ps with
  | [] => Ok None
  | piece :: rest =>
      let? has := getitem bf (Piece.index piece) in
      let continue :=
        let? r := ongoing_scan bf rest in
        Ok (match r with
            | Some (b, rest') => Some (b, piece :: rest')
            | None => None
            end) in
      if has then
        match Piece.next_request piece with
        | (Some block, piece') => Ok (Some (block, piece' :: rest))
        | (None, _) => continue
        end
      else continue
  end.

Definition _next_ongoing (now : Z) (peer_id : string) (m : t)
  : result (option Block.t) * t :=
  match peer_bitfield peer_id m with
  | Raise e => (Raise e, m)
  | Ok bf =>
      match ongoing_scan bf (ongoing_pieces m) with
      | Raise e => (Raise e, m)
      | Ok None => (Ok None, m)
      | Ok (Some (block, ongoing')) =>
          (Ok (Some block),
           set_pending_blocks
             (pending_blocks m ++ [PendingRequest.mk block now])
             (set_ongoing_pieces ongoing' m))
      end
  end.

(** The scan of [_next_missing]: the piece popped and the list left. *)
Fixpoint missing_scan (bf : bitfield) (ps : list Piece.t)
  : result (option (Piece.t * list Piece.t)) :=
  match ps with
  | [] => Ok None
  | piece :: rest =>
      let? has := getitem bf (Piece.index piece) in
      if has then Ok (Some (piece, rest))
      else
        let? r := missing_scan bf rest in
        Ok (match r with
            | Some (p, rest') => Some (p, piece :: rest')
            | None => None
            end)
  end.

Definition _next_missing (peer_id : string) (m : t)
  : result (option Block.t) * t :=
  match peer_bitfield peer_id m with
  | Raise e => (Raise e, m)
  | Ok bf =>
      match missing_scan bf (missing_pieces m) with
      | Raise e => (Raise e, m)
      | Ok None => (Ok None, m)
      | Ok (Some (piece, missing')) =>
          let '(block, piece') := Piece.next_request piece in
          (Ok block,
           set_ongoing_pieces (ongoing_pieces m ++ [piece'])
                              (set_missing_pieces missing' m))
      end
  end.

(** [now] is the clock reading [int(round(time.time() * 1000))]; the
    call is synchronous and the one instant stands for the readings taken
    in [_expired_request] and in [_next_ongoing]. *)
Definition next_request (now : Z) (peer_id : string) (m : t)
  : result (option Block.t) * t :=
  match peers m !! peer_id with
  | None => (Ok None, m)
  | Some _ =>
      match _expired_request now peer_id m with
      | Raise e => (Raise e, m)
      | Ok (Some block) => (Ok (Some block), m)
      | Ok None =>
          match _next_ongoing now peer_id m with
          | (Ok None, m1) => _next_missing peer_id m1
          | r => r
          end
      end
  end.

End DownloadManager.

(** ** Wire messages

    Modelled from the spec: module [message] is not among the sources.
    A frame is a 4-byte big-endian length prefix (length of id and
    payload), a 1-byte id and the payload; a zero prefix is a keep-alive.
    [decode] fails with [MalformedMessage] when the prefix is inconsistent
    with the buffer it is given. *)

Inductive Message : Type :=
| KeepAliveMessage
| ChokeMessage
| UnchokeMessage
| InterestedMessage
| NotInterestedMessage
| HaveMessage (index : Z)
| BitFieldMessage (bits : bitfield)
| RequestMessage (index begin length : Z)
| PieceMessage (index begin : Z) (block : bytes)
| CancelMessage (index begin length : Z).

Module Codec.

Definition u32 (x : Z) : bytes := SHA1.be_bytes 4 x.
Definition unpack (bs : bytes) : Z := SHA1.be_word bs.

Definition byte_bits (b : byte) : list bool :=
  map (fun i => Z.testbit (byte_to_Z b) (Z.of_nat (7 - i))) (seq 0 8).

Fixpoint bits_byte (bs : list bool) : Z :=
  match bs with
  | [] => 0
  | b :: r => (if b then 2 ^ len r else 0) + bits_byte r
  end.

Fixpoint pack_bits (fuel : nat) (bs : list bool) : bytes :=
  match fuel with
  | O => []
  | S fuel' =>
      match bs with
      | [] => []
      | _ =>
          byte_of_Z (bits_byte (take 8 (bs ++ repeat false 7)))
            :: pack_bits fuel' (drop 8 bs)
      end
  end.

Definition frame (id : Z) (payload : bytes) : bytes :=
  u32 (1 + len payload) ++ [byte_of_Z id] ++ payload.

Definition encode (m : Message) : bytes :=
  match m with
  | KeepAliveMessage => u32 0
  | ChokeMessage => frame 0 []
  | UnchokeMessage => frame 1 []
  | InterestedMessage => frame 2 []
  | NotInterestedMessage => frame 3 []
  | HaveMessage i => frame 4 (u32 i)
  | BitFieldMessage b => frame 5 (pack_bits (length b) b)
  | RequestMessage i b l => frame 6 (u32 i ++ u32 b ++ u32 l)
  | PieceMessage i b d => frame 7 (u32 i ++ u32 b ++ d)
  | CancelMessage i b l => frame 8 (u32 i ++ u32 b ++ u32 l)
  end.

(** The payload of a frame whose prefix agrees with its size. *)
Definition payload (data : bytes) : result bytes :=
  if (len data >=? 5) && (len data =? 4 + unpack (take 4 data))
  then Ok (drop 5 data)
  else Raise MalformedMessage.

Definition decode_have (data : bytes) : result Message :=
  let? p := payload data in
  if len p =? 4 then Ok (HaveMessage (unpack p)) else Raise MalformedMessage.

Definition decode_bitfield (data : bytes) : result Message :=
  let? p := payload data in
  Ok (BitFieldMessage (flat_map byte_bits p)).

Definition decode_triple (mk : Z -> Z -> Z -> Message) (data : bytes)
  : result Message :=
  let? p := payload data in
  if len p =? 12 then
    Ok (mk (unpack (take 4 p)) (unpack (take 4 (drop 4 p)))
           (unpack (take 4 (drop 8 p))))
  else Raise MalformedMessage.

Definition decode_piece (data : bytes) : result Message :=
  let? p := payload data in
  if len p >=? 8 then
    Ok (PieceMessage (unpack (take 4 p)) (unpack (take 4 (drop 4 p)))
                     (drop 8 p))
  else Raise MalformedMessage.

End Codec.

(** ** PeerStreamIterator (protocol.py, lines 43-193) *)

Module PeerStreamIterator.

(** [reader] lists what the successive [read] calls return; once it is
    exhausted [read] returns the empty byte string (end of stream). *)
Record t : Type := mk {
  reader : list bytes;
  buffer : bytes
}.

Definition CHUNK_SIZE : Z := 10 * 1024.

(** [PeerStreamIterator(reader, initial)] *)
Definition init (reader : list bytes) (initial : bytes) : t :=
  mk reader initial.

(** [struct.unpack('>b', ...)]: a signed byte *)
Definition signed_byte (b : byte) : Z :=
  let v := byte_to_Z b in if v <? 128 then v else v - 256.

Definition header_length : Z := 4.

(** [parse]: the message, if any, and the buffer left.  A decoder runs
    after [_consume()], so the buffer is consumed even when it raises.
    The numbers are the values of [MessageID] (module [message]), taken
    from the spec's table of message ids. *)
Definition parse (buffer : bytes) : result (option Message) * bytes :=
  if len buffer >? 4 then
    let message_length := Codec.unpack (take 4 buffer) in
    if message_length =? 0 then (Ok (Some KeepAliveMessage), buffer)
    else if len buffer >=? message_length then
      let message_id :=
        match buffer !! 4%nat with
        | Some b => signed_byte b
        | None => -1
        end in
      let n := Z.to_nat (header_length + message_length) in
      let data := take n buffer in
      let consumed := drop n buffer in
      let decoded (d : result Message) :=
        (let? m := d in Ok (Some m), consumed) in
      if message_id =? 5 then decoded (Codec.decode_bitfield data)
      else if message_id =? 2 then (Ok (Some InterestedMessage), consumed)
      else if message_id =? 3 then (Ok (Some NotInterestedMessage), consumed)
      else if message_id =? 0 then (Ok (Some ChokeMessage), consumed)
      else if message_id =? 1 then (Ok (Some UnchokeMessage), consumed)
      else if message_id =? 4 then decoded (Codec.decode_have data)
      else if message_id =? 7 then decoded (Codec.decode_piece data)
      else if message_id =? 6 then
        decoded (Codec.decode_triple RequestMessage data)
      else if message_id =? 8 then
        decoded (Codec.decode_triple CancelMessage data)
      else (Ok None, buffer)
    else (Ok None, buffer)
  else (Ok None, buffer).

Inductive outcome : Type :=
| Yield (m : Message)
| StopAsyncIteration
(** the [while True] loop is still running when the fuel is spent *)
| Running.

Definition read (it : t) : bytes * list bytes :=
  match reader it with
  | [] => ([], [])
  | chunk :: rest => (chunk, rest)
  end.

(** [__anext__]: one demand.  An exception out of [parse] is caught and
    ends the iteration. *)
Fixpoint __anext__ (fuel : nat) (it : t) : outcome * t :=
  match fuel with
  | O => (Running, it)
  | S fuel' =>
      match buffer it with
      | _ :: _ =>
          match parse (buffer it) with
          | (Ok (Some message), buf) => (Yield message, mk (reader it) buf)
          | (Ok None, buf) => __anext__ fuel' (mk (reader it) buf)
          | (Raise _, buf) => (StopAsyncIteration, mk (reader it) buf)
          end
      | [] =>
          let '(data, rest) := read it in
          match data with
          | _ :: _ =>
              match parse (buffer it ++ data) with
              | (Ok (Some message), buf) => (Yield message, mk rest buf)
              | (_, buf) => (StopAsyncIteration, mk rest buf)
              end
          | [] => (StopAsyncIteration, mk rest (buffer it))
          end
      end
  end.

(** The messages an [async for] over the iterator receives within
    [demands] demands, and how the iteration stands afterwards. *)
Fixpoint collect (demands fuel : nat) (it : t) : list Message * outcome :=
  match demands with
  | O => ([], Running)
  | S demands' =>
      match __anext__ fuel it with
      | (Yield m, it') =>
          let '(ms, o) := collect demands' fuel it' in (m :: ms, o)
      | (o, _) => ([], o)
      end
  end.

End PeerStreamIterator.

(** ** PeerConnection (protocol.py, lines 196-372) *)

Module PeerState.
(** The members of the enumeration; [current_state] lists their values. *)
Inductive t : Type := Choked | Interested | Stopped | PendingRequest.

#[global] Instance eq_dec : EqDecision t.
Proof. solve_decision. Defined.
End PeerState.

Module PeerConnection.

(** What the session wrote to its peer, each with [current_state] as it
    was when the bytes were handed to the writer. *)
Record sent : Type := Sent {
  sent_state : list PeerState.t;
  sent_message : Message
}.

Record t : Type := mk {
  current_state : list PeerState.t;
  remote_id : string;
  download_manager : DownloadManager.t;
  writer : list sent
}.

Definition set_state (st : list PeerState.t) (c : t) : t :=
  mk st (remote_id c) (download_manager c) (writer c).
Definition set_manager (m : DownloadManager.t) (c : t) : t :=
  mk (current_state c) (remote_id c) m (writer c).
Definition write (msg : Message) (c : t) : t :=
  mk (current_state c) (remote_id c) (download_manager c)
     (writer c ++ [Sent (current_state c) msg]).

Definition has (x : PeerState.t) (c : t) : bool :=
  bool_decide (x ∈ current_state c).

Definition append (x : PeerState.t) (c : t) : t :=
  set_state (current_state c ++ [x]) c.

(** [list.remove(x)]: drops the first occurrence; [ValueError] when
    there is none. *)
Definition remove (x : PeerState.t) (c : t) : result t :=
  if has x c then
    Ok (set_state
          (remove_first (fun y => bool_decide (y = x)) (current_state c)) c)
  else Raise ValueError.

(** as [remove], inside [try: ... except ValueError: pass] *)
Definition discard (x : PeerState.t) (c : t) : t :=
  match remove x c with
  | Ok c' => c'
  | Raise _ => c
  end.

Definition can_request (c : t) : bool :=
  negb (has PeerState.Choked c) && has PeerState.Interested c.

Definition send_interested (c : t) : t := write InterestedMessage c.

Definition send_request (now : Z) (c : t) : result unit * t :=
  match DownloadManager.next_request now (remote_id c) (download_manager c) with
  | (Raise e, m) => (Raise e, set_manager m c)
  | (Ok None, m) => (Ok tt, set_manager m c)
  | (Ok (Some block), m) =>
      (Ok tt,
       write (RequestMessage (Block.piece block) (Block.offset block)
                             (Block.length block))
             (set_manager m c))
  end.

(** The [isinstance] chain of [handle_message].  [DownloadManager] has
    no attribute [update_peer], which the Have branch calls. *)
Definition dispatch (message : Message) (c : t) : result unit * t :=
  match message with
  | InterestedMessage => (Ok tt, append PeerState.Interested c)
  | NotInterestedMessage => (Ok tt, discard PeerState.Interested c)
  | ChokeMessage => (Ok tt, append PeerState.Choked c)
  | UnchokeMessage => (Ok tt, discard PeerState.Choked c)
  | HaveMessage _ => (Raise (AttributeError "update_peer"), c)
  | BitFieldMessage bits =>
      let c1 := if has PeerState.Interested c then c else send_interested c in
      (Ok tt,
       set_manager
         (DownloadManager.add_peer (remote_id c1) bits (download_manager c1))
         c1)
  | PieceMessage index begin block =>
      match remove PeerState.PendingRequest c with
      | Raise e => (Raise e, c)
      | Ok c1 =>
          match DownloadManager.on_block_complete
                  (remote_id c1) index begin block (download_manager c1) with
          | (r, m) => (r, set_manager m c1)
          end
      end
  | RequestMessage _ _ _ => (Ok tt, c)
  | CancelMessage _ _ _ => (Ok tt, c)
  | KeepAliveMessage => (Ok tt, c)
  end.

(** The body of the [async for] loop after the Stopped test. *)
Definition handle_one (now : Z) (message : Message) (c : t) : result unit * t :=
  match dispatch message c with
  | (Raise e, c1) => (Raise e, c1)
  | (Ok _, c1) =>
      if can_request c1 then
        if has PeerState.PendingRequest c1 then (Ok tt, c1)
        else send_request now (append PeerState.PendingRequest c1)
      else (Ok tt, c1)
  end.

(** One arrival: the clock reading, what the other sessions did to the
    shared manager while this one was suspended, and the message. *)
Record arrival : Type := Arrival {
  at_time : Z;
  meanwhile : DownloadManager.t -> DownloadManager.t;
  message : Message
}.

(** [handle_message]: the loop over the framed messages; an exception
    leaves the loop and ends the session task. *)
Fixpoint handle_message (inputs : list arrival) (c : t) : result unit * t :=
  match inputs with
  | [] => (Ok tt, c)
  | a :: rest =>
      let c0 := set_manager (meanwhile a (download_manager c)) c in
      if has PeerState.Stopped c0 then (Ok tt, c0)
      else
        match handle_one (at_time a) (message a) c0 with
        | (Raise e, c1) => (Raise e, c1)
        | (Ok _, c1) => handle_message rest c1
        end
  end.

(** The session as [start] enters the loop: [send_handshake] appended
    Interested, then [start] appended Choked. *)
Definition start (remote : string) (m : DownloadManager.t) : t :=
  mk [PeerState.Interested; PeerState.Choked] remote m [].

End PeerConnection.

(** * Vocabulary of the properties and scenario inputs *)

(** A Retrieved block carries the bytes it was completed with:
    [block_received] sets both fields together, and nothing else sets
    the status to Retrieved. *)
Definition block_wf (b : Block.t) : Prop :=
  Block.status b = Retrieved -> is_Some (Block.data b).

Definition piece_wf (p : Piece.t) : Prop := Forall block_wf (Piece.blocks p).

(** What "in offset order" means for a list of blocks: a reordering that
    is ascending in offset and keeps the order of blocks at one offset. *)
Definition offset_order (bs out : list Block.t) : Prop :=
  out ≡ₚ bs
  /\ StronglySorted (fun a c => Block.offset a <= Block.offset c) out
  /\ forall o, filter (fun b => Block.at_offset o b = true) out
               = filter (fun b => Block.at_offset o b = true) bs.

(** A piece of one Retrieved block holding "abc", stored with the raw
    20-byte digest of its data. *)
Definition abc : bytes := list_byte_of_string "abc".

Definition raw_digest_piece : Piece.t :=
  Piece.mk 0 [Block.mk 0 0 3 Retrieved (Some abc)] (SHA1.digest abc).

(** The same piece stored with the hexadecimal rendering. *)
Definition hex_digest_piece : Piece.t :=
  Piece.mk 0 [Block.mk 0 0 3 Retrieved (Some abc)] (SHA1.hexdigest abc).

(** The lengths of a piece's blocks, summed. *)
Definition blocks_total (p : Piece.t) : Z :=
  foldr Z.add 0 (map Block.length (Piece.blocks p)).

Definition digest_placeholder : bytes := repeat x00 20.

(** Scenario S1: one piece, [piece_length = 16384], [length = 100]. *)
Definition info_S1 : Info.t := Info.mk [digest_placeholder] 16384 100.
(** Scenario S2: two exact pieces, [piece_length = 32768]. *)
Definition info_S2 : Info.t :=
  Info.mk [digest_placeholder; digest_placeholder] 32768 65536.
(** Scenario S3: last piece short, [length = 40000]. *)
Definition info_S3 : Info.t :=
  Info.mk [digest_placeholder; digest_placeholder] 32768 40000.
(** A piece length that is not a multiple of the block size. *)
Definition info_odd_piece : Info.t :=
  Info.mk [digest_placeholder; digest_placeholder] 20000 36384.

(** The partition invariant of the manager: the three collections hold
    [total_pieces] pieces, each piece index [0 .. total_pieces - 1] occurs
    in exactly one place of exactly one collection, and every pending
    request is for a block (named by piece index and offset) of a piece
    in [ongoing_pieces]. *)
Definition block_key (b : Block.t) : Z * Z := (Block.piece b, Block.offset b).

Definition has_block (ps : list Piece.t) (k : Z * Z) : Prop :=
  exists p b, p ∈ ps /\ b ∈ Piece.blocks p /\ block_key b = k.

(** What the invariant sees of a piece: its index and its blocks' keys. *)
Definition piece_shape (p : Piece.t) : Z * list (Z * Z) :=
  (Piece.index p, map block_key (Piece.blocks p)).

Definition all_pieces (m : DownloadManager.t) : list Piece.t :=
  DownloadManager.missing_pieces m ++ DownloadManager.ongoing_pieces m
    ++ DownloadManager.have_pieces m.

Definition partition_inv (m : DownloadManager.t) : Prop :=
  len (DownloadManager.missing_pieces m) + len (DownloadManager.ongoing_pieces m)
    + len (DownloadManager.have_pieces m) = DownloadManager.total_pieces m
  /\ map Piece.index (all_pieces m) ≡ₚ range (DownloadManager.total_pieces m)
  /\ Forall (fun r => has_block (DownloadManager.ongoing_pieces m)
                                (block_key (PendingRequest.block r)))
            (DownloadManager.pending_blocks m).

Definition MAX_PENDING_MS : Z := 300000.

(** A two-piece torrent, [piece_length = 32768], [length = 49152]; the
    first piece is stored with the hexadecimal SHA-1 of "abc". *)
Definition demo_hash0 : bytes :=
  list_byte_of_string "a9993e364706816aba3e25717850c26c9cd0d89d".
Definition demo_hash1 : bytes :=
  list_byte_of_string "5188431849b4613152fd7bdba6a3ff0a4fd6424b".

Definition demo_info : Info.t := Info.mk [demo_hash0; demo_hash1] 32768 49152.

Definition demo_piece0 (s0 : BlockStatus) (d0 : option bytes)
    (s1 : BlockStatus) (d1 : option bytes) : Piece.t :=
  Piece.mk 0 [Block.mk 0 0 16384 s0 d0; Block.mk 0 16384 16384 s1 d1]
           demo_hash0.

Definition demo_piece1 : Piece.t :=
  Piece.mk 1 [Block.mk 1 0 16384 Missing None] demo_hash1.

(** The manager as [__init__] leaves it, the output file being new. *)
Definition demo_fresh : DownloadManager.t :=
  DownloadManager.mk demo_info 2 ∅ [] [] []
    [demo_piece0 Missing None Missing None; demo_piece1] [] None.

(** A peer that has both pieces registers. *)
Definition demo_seeded : DownloadManager.t :=
  DownloadManager.add_peer "peer" [true; true] demo_fresh.

(** The peer was handed the first block of piece 0 (at time 0) ... *)
Definition demo_requested_first : DownloadManager.t :=
  DownloadManager.set_ongoing_pieces [demo_piece0 Pending None Missing None]
    (DownloadManager.set_missing_pieces [demo_piece1] demo_seeded).

(** ... and then the second (at time 1), before anything arrived. *)
Definition demo_requested_second : DownloadManager.t :=
  DownloadManager.set_pending_blocks
    [PendingRequest.mk (Block.mk 0 16384 16384 Pending None) 1]
    (DownloadManager.set_ongoing_pieces [demo_piece0 Pending None Pending None]
       demo_requested_first).

Definition ab : bytes := list_byte_of_string "ab".
Definition c : bytes := list_byte_of_string "c".

(** Or else: the first block arrived, holding "ab", ... *)
Definition demo_received_first : DownloadManager.t :=
  DownloadManager.set_ongoing_pieces
    [demo_piece0 Retrieved (Some ab) Missing None] demo_requested_first.

(** ... and the peer was then handed the second block (at time 1). *)
Definition demo_last_block_due : DownloadManager.t :=
  DownloadManager.set_pending_blocks
    [PendingRequest.mk (Block.mk 0 16384 16384 Pending None) 1]
    (DownloadManager.set_ongoing_pieces
       [demo_piece0 Retrieved (Some ab) Pending None] demo_received_first).

(** The manager after the second block arrived, holding "c". *)
Definition demo_after_last_block : DownloadManager.t :=
  DownloadManager.set_file abc
    (DownloadManager.set_ongoing_pieces []
       (DownloadManager.set_pending_blocks [] demo_last_block_due)).

(** The byte stream of a sequence of frames, and the iterator over a
    reader that delivers it in the given chunks. *)
Definition stream_of (ms : list Message) : bytes := flat_map Codec.encode ms.

Definition chunked (chunks : list bytes) : PeerStreamIterator.t :=
  PeerStreamIterator.init chunks [].

(** One Interested frame, its 4-byte prefix split across two reads. *)
Definition split_prefix : list bytes := [[x00; x00; x00]; [x01; x02]].

(** Unchoke then Interested, the second frame split across two reads. *)
Definition split_second : list bytes :=
  [[x00; x00; x00; x01; x01; x00]; [x00; x00; x01; x02]].

(** A keep-alive then Interested, in one read. *)
Definition keep_alive_first : list bytes :=
  [[x00; x00; x00; x00; x00; x00; x00; x01; x02]].

(** Have(7), its payload in a second read. *)
Definition split_payload : list bytes :=
  [[x00; x00; x00; x05; x04]; [x00; x00; x00; x07]].

(** Unchoke then Interested, in one read. *)
Definition whole : list bytes :=
  [[x00; x00; x00; x01; x01; x00; x00; x00; x01; x02]].

(** Choke gating, as a property of one write: a Request was handed to
    the writer with Choked absent from [current_state]; the state it was
    gated on ([current_state] before PendingRequest was appended) had
    Interested, had no Choked and had no PendingRequest. *)
Definition request_gated (s : PeerConnection.sent) : Prop :=
  match PeerConnection.sent_message s with
  | RequestMessage _ _ _ =>
      (PeerState.Choked ∉ PeerConnection.sent_state s)
      /\ exists gate,
          PeerConnection.sent_state s = gate ++ [PeerState.PendingRequest]
          /\ (PeerState.Choked ∉ gate)
          /\ (PeerState.Interested ∈ gate)
          /\ (PeerState.PendingRequest ∉ gate)
  | _ => True
  end.

(** A message arriving at clock [t] with the manager untouched meanwhile. *)
Definition arrives (t : Z) (msg : Message) : PeerConnection.arrival :=
  PeerConnection.Arrival t (fun m => m) msg.

(** ** Further vocabulary *)

(** A piece asked [n] times in a row for its next request: the blocks it
    hands out, in order, and the piece afterwards. *)
Fixpoint hand_out (n : nat) (p : Piece.t) : list Block.t * Piece.t :=
  match n with
  | O => ([], p)
  | S n' =>
      match Piece.next_request p with
      | (Some b, p') => let '(bs, q) := hand_out n' p' in (b :: bs, q)
      | (None, p') => ([], p')
      end
  end.

(** A Missing block marked Pending, any other block as it is. *)
Definition mark_pending (b : Block.t) : Block.t :=
  if Block.is_missing b then Block.set_status Pending b else b.

(** The number of blocks [make_pieces] gives the piece at [index]. *)
Definition blocks_count (info : Info.t) (index : Z) : Z :=
  if index <? len (Info.pieces info) - 1
  then ceil_div (Info.piece_length info) REQUEST_SIZE
  else ceil_div (Info.length info mod Info.piece_length info) REQUEST_SIZE.

(** A call into the manager by one of its sessions, and the manager after
    a sequence of calls; a call that raises leaves the manager as the
    exception found it, for the sessions that go on. *)
Inductive call : Type :=
| AddPeer (peer_id : string) (bf : bitfield)
| NextRequest (now : Z) (peer_id : string)
| OnBlockComplete (peer_id : string) (piece_index block_offset : Z) (d : bytes).

Definition perform (c : call) (m : DownloadManager.t) : DownloadManager.t :=
  match c with
  | AddPeer peer_id bf => DownloadManager.add_peer peer_id bf m
  | NextRequest now peer_id => snd (DownloadManager.next_request now peer_id m)
  | OnBlockComplete peer_id i o d =>
      snd (DownloadManager.on_block_complete peer_id i o d m)
  end.

Definition run (cs : list call) (m : DownloadManager.t) : DownloadManager.t :=
  fold_left (fun m c => perform c m) cs m.

(** What no method of the manager assigns after [__init__]. *)
Definition fixed_part (m : DownloadManager.t) : Info.t * Z * list Piece.t :=
  (DownloadManager.torrent m, DownloadManager.total_pieces m,
   DownloadManager.have_pieces m).

(** The four messages without payload that change the session's state
    set, with their ids, and the frame of such a message: the prefix
    [00 00 00 01] and the id. *)
Definition state_id (m : Message) : option byte :=
  match m with
  | ChokeMessage => Some x00
  | UnchokeMessage => Some x01
  | InterestedMessage => Some x02
  | NotInterestedMessage => Some x03
  | _ => None
  end.

Definition bare_frame (m : Message) : bytes :=
  match state_id m with
  | Some id => [x00; x00; x00; x01; id]
  | None => []
  end.

(** The bytes of a group of such messages, back to back. *)
Definition bare_frames (ms : list Message) : bytes := flat_map bare_frame ms.

(** The Requests among what a session wrote. *)
Definition is_request (s : PeerConnection.sent) : bool :=
  match PeerConnection.sent_message s with
  | RequestMessage _ _ _ => true
  | _ => false
  end.

Definition requests_sent (c : PeerConnection.t) : list PeerConnection.sent :=
  filter (fun s => is_request s = true) (PeerConnection.writer c).

Definition is_piece_message (m : Message) : bool :=
  match m with
  | PieceMessage _ _ _ => true
  | _ => false
  end.

Definition is_unchoke_message (m : Message) : bool :=
  match m with
  | UnchokeMessage => true
  | _ => false
  end.

(** * Properties *)

(** FIPS 180 test vectors. *)
Example sha1_empty :
  SHA1.hexdigest [] =
  list_byte_of_string "da39a3ee5e6b4b0d3255bfef95601890afd80709".
Proof. vm_compute. reflexivity. Qed.

Example sha1_abc :
  SHA1.hexdigest (list_byte_of_string "abc") =
  list_byte_of_string "a9993e364706816aba3e25717850c26c9cd0d89d".
Proof. vm_compute. reflexivity. Qed.

Example sha1_two_blocks :
  SHA1.hexdigest
    (list_byte_of_string
       "abcdbcdecdefdefgefghfghighijhijkijkljklmklmnlmnomnopnopq") =
  list_byte_of_string "84983e441c3bd26ebaae4aa1f95129e5e54670f1".
Proof. vm_compute. reflexivity. Qed.

(** ** The piece model *)

Section PieceFacts.

Implicit Types (b : Block.t) (p : Piece.t) (bs : list Block.t).


Lemma update_first_length {A} (P : A -> bool) f (l : list A) :
  length (update_first P f l) = length l.
Proof. induction l as [|x r IH]; simpl; [done|]. destruct (P x); simpl; auto. Qed.

Lemma update_first_Forall {A} (Q : A -> Prop) (P : A -> bool) f (l : list A) :
  (forall x, Q x -> Q (f x)) -> Forall Q l -> Forall Q (update_first P f l).
Proof.
  intros Hf. induction 1 as [|x r Hx Hr IH]; simpl; [constructor|].
  destruct (P x); constructor; auto.
Qed.

Lemma block_wf_init i o l : block_wf (Block.init i o l).
Proof. unfold block_wf. simpl. discriminate. Qed.

Lemma block_wf_set_status s b : s <> Retrieved -> block_wf (Block.set_status s b).
Proof. unfold block_wf. simpl. congruence. Qed.

Lemma block_wf_retrieve d b : block_wf (Block.retrieve d b).
Proof. unfold block_wf. simpl. eauto. Qed.

Lemma piece_wf_reset p : piece_wf (Piece.reset p).
Proof.
  unfold piece_wf, Piece.reset. simpl. apply Forall_forall.
  intros b Hb. apply list_elem_of_fmap in Hb as (b' & -> & _).
  by apply block_wf_set_status.
Qed.

Lemma piece_wf_next_request p :
  piece_wf p -> piece_wf (snd (Piece.next_request p)).
Proof.
  unfold piece_wf, Piece.next_request. intros H.
  destruct (filter _ (Piece.blocks p)); simpl; [done|].
  apply update_first_Forall; [|done].
  intros x _. by apply block_wf_set_status.
Qed.

Lemma piece_wf_block_received o d p p' :
  piece_wf p -> Piece.block_received o d p = Ok p' -> piece_wf p'.
Proof.
  unfold piece_wf, Piece.block_received. intros H.
  destruct (filter _ (Piece.blocks p)); [discriminate|].
  intros [= <-]. simpl. apply update_first_Forall; [|done].
  intros x _. apply block_wf_retrieve.
Qed.

Lemma insert_by_offset_perm b bs : Piece.insert_by_offset b bs ≡ₚ b :: bs.
Proof.
  induction bs as [|x r IH]; simpl; [done|].
  destruct (Block.offset b <=? Block.offset x); [done|].
  rewrite IH. apply Permutation_swap.
Qed.

Lemma sorted_blocks_perm p : Piece.sorted_blocks p ≡ₚ Piece.blocks p.
Proof.
  unfold Piece.sorted_blocks. induction (Piece.blocks p) as [|x r IH]; simpl; [done|].
  by rewrite insert_by_offset_perm, IH.
Qed.

Lemma insert_by_offset_sorted b bs :
  StronglySorted (fun a c => Block.offset a <= Block.offset c) bs ->
  StronglySorted (fun a c => Block.offset a <= Block.offset c)
                 (Piece.insert_by_offset b bs).
Proof.
  induction 1 as [|x r Hr IH Hx]; simpl.
  - repeat constructor.
  - destruct (Z.leb_spec (Block.offset b) (Block.offset x)).
    + constructor; [by constructor|].
      constructor; [done|].
      eapply Forall_impl; [exact Hx|]. simpl. intros. lia.
    + constructor; [done|].
      rewrite insert_by_offset_perm. constructor; [lia|done].
Qed.

Lemma sorted_blocks_sorted p :
  StronglySorted (fun a c => Block.offset a <= Block.offset c)
                 (Piece.sorted_blocks p).
Proof.
  unfold Piece.sorted_blocks. induction (Piece.blocks p) as [|x r IH]; simpl.
  - constructor.
  - by apply insert_by_offset_sorted.
Qed.

Lemma insert_by_offset_stable o b bs :
  StronglySorted (fun a c => Block.offset a <= Block.offset c) bs ->
  filter (fun x => Block.at_offset o x = true) (Piece.insert_by_offset b bs)
  = filter (fun x => Block.at_offset o x = true) (b :: bs).
Proof.
  induction 1 as [|x r Hr IH Hx]; simpl; [done|].
  destruct (Z.leb_spec (Block.offset b) (Block.offset x)); [done|].
  rewrite !filter_cons, IH, !filter_cons.
  unfold Block.at_offset.
  destruct (decide ((Block.offset x =? o) = true)) as [Hxo|Hxo];
    destruct (decide ((Block.offset b =? o) = true)) as [Hbo|Hbo]; try done.
  lia.
Qed.

Lemma sorted_blocks_stable o p :
  filter (fun x => Block.at_offset o x = true) (Piece.sorted_blocks p)
  = filter (fun x => Block.at_offset o x = true) (Piece.blocks p).
Proof.
  unfold Piece.sorted_blocks. induction (Piece.blocks p) as [|x r IH]; simpl; [done|].
  rewrite insert_by_offset_stable.
  - by rewrite !filter_cons, IH.
  - clear IH. induction r as [|y r IH]; simpl; [constructor|].
    by apply insert_by_offset_sorted.
Qed.

Lemma sorted_blocks_offset_order p :
  offset_order (Piece.blocks p) (Piece.sorted_blocks p).
Proof.
  split; [apply sorted_blocks_perm|].
  split; [apply sorted_blocks_sorted|].
  intros o. apply sorted_blocks_stable.
Qed.

Lemma is_complete_Forall p :
  Piece.is_complete p = true
  <-> Forall (fun b => Block.status b = Retrieved) (Piece.blocks p).
Proof.
  unfold Piece.is_complete. rewrite bool_decide_eq_true.
  induction (Piece.blocks p) as [|x r IH]; simpl.
  - split; [constructor|done].
  - destruct (decide (Block.is_retrieved x = false)) as [E|E].
    + rewrite filter_cons_True by done. simpl.
      apply bool_decide_eq_false in E.
      split; [done|]. by inversion 1.
    + rewrite filter_cons_False by done. rewrite IH.
      apply not_false_iff_true, bool_decide_eq_true in E.
      split; [by constructor|]. by inversion 1.
Qed.

Lemma join_Some (ds : list bytes) : Piece.join (map Some ds) = Ok (concat ds).
Proof. induction ds as [|d r IH]; simpl; [done|]. by rewrite IH. Qed.

Lemma all_data bs :
  Forall (fun b => is_Some (Block.data b)) bs ->
  exists ds, map Block.data bs = map Some ds.
Proof.
  induction 1 as [|x r [d Hd] Hr [ds IH]]; [by exists []|].
  exists (d :: ds). simpl. by rewrite Hd, IH.
Qed.

End PieceFacts.


(** C2, as stated, fails: the piece is complete and its stored digest is
    the 20-byte SHA-1 digest of its data, yet [is_hash_matching] returns
    false, because it compares the stored value with the 40 hexadecimal
    characters of the digest. *)
Lemma is_hash_matching_raw_digest_rejected :
  Piece.is_complete raw_digest_piece = true
  /\ Piece.data raw_digest_piece = Ok abc
  /\ length (SHA1.digest abc) = 20%nat
  /\ SHA1.digest abc = Piece.hash raw_digest_piece
  /\ Piece.is_hash_matching raw_digest_piece = Ok false
  /\ ~ (Piece.is_hash_matching raw_digest_piece = Ok true
        <-> SHA1.digest abc = Piece.hash raw_digest_piece).
Proof.
  assert (H : Piece.is_hash_matching raw_digest_piece = Ok false)
    by (vm_compute; reflexivity).
  assert (Hd : SHA1.digest abc = Piece.hash raw_digest_piece)
    by (vm_compute; reflexivity).
  split; [vm_compute; reflexivity|].
  split; [vm_compute; reflexivity|].
  split; [vm_compute; reflexivity|].
  split; [exact Hd|].
  split; [exact H|].
  intros [_ Hback]. apply Hback in Hd. congruence.
Qed.

(** C2, amended: for every complete piece whose Retrieved blocks carry
    their data, [is_hash_matching] returns, and it returns true if and
    only if the stored hash equals the 40 lower-case hexadecimal
    characters of the SHA-1 digest of the blocks' data concatenated in
    offset order. *)
Theorem is_hash_matching_iff_hexdigest (p : Piece.t) :
  Piece.is_complete p = true ->
  piece_wf p ->
  exists (out : list Block.t) (ds : list bytes) (r : bool),
    offset_order (Piece.blocks p) out
    /\ map Block.data out = map Some ds
    /\ Piece.is_hash_matching p = Ok r
    /\ (r = true <-> Piece.hash p = SHA1.hexdigest (concat ds)).
Proof.
  intros Hc Hwf. apply is_complete_Forall in Hc.
  assert (Hall : Forall (fun b => is_Some (Block.data b)) (Piece.sorted_blocks p)).
  { rewrite sorted_blocks_perm. unfold piece_wf in Hwf.
    rewrite Forall_forall in Hc, Hwf |- *. intros b Hb. apply Hwf; auto. }
  destruct (all_data _ Hall) as [ds Hds].
  exists (Piece.sorted_blocks p), ds,
         (bool_decide (Piece.hash p = SHA1.hexdigest (concat ds))).
  split; [apply sorted_blocks_offset_order|].
  split; [exact Hds|].
  split.
  - unfold Piece.is_hash_matching, Piece.data. rewrite Hds, join_Some. reflexivity.
  - apply bool_decide_eq_true.
Qed.


Lemma is_hash_matching_iff_hexdigest_witness :
  exists (out : list Block.t) (ds : list bytes) (r : bool),
    offset_order (Piece.blocks hex_digest_piece) out
    /\ map Block.data out = map Some ds
    /\ Piece.is_hash_matching hex_digest_piece = Ok r
    /\ (r = true <-> Piece.hash hex_digest_piece = SHA1.hexdigest (concat ds)).
Proof.
  apply (is_hash_matching_iff_hexdigest hex_digest_piece).
  - vm_compute. reflexivity.
  - repeat constructor. intros _. simpl. eauto.
Defined.

(** ** make_pieces *)

Section MakePieces.

Import DownloadManager.

Lemma ceil_div_pos a b : 0 < a -> 0 < b -> 0 < ceil_div a b.
Proof.
  intros Ha Hb. unfold ceil_div.
  assert (- a / b < 0) by (apply Z.div_lt_upper_bound; lia).
  lia.
Qed.

Lemma range_pos_nonempty n : 0 < n -> range n <> [].
Proof.
  intros Hn. unfold range.
  destruct (Z.to_nat n) eqn:E; [lia|]. simpl. discriminate.
Qed.

Lemma full_blocks_nonempty index n : 0 < n -> full_blocks index n <> [].
Proof.
  intros Hn. unfold full_blocks.
  pose proof (range_pos_nonempty n Hn) as Hr.
  destruct (range n); [done|]. simpl. discriminate.
Qed.

(** The last piece of a file with a short tail. *)
Lemma piece_blocks_short_tail info tot tpb :
  0 < Info.piece_length info ->
  0 < (Info.length info mod Info.piece_length info) mod REQUEST_SIZE ->
  piece_blocks info tot tpb (tot - 1) = Raise (NameError "block").
Proof.
  intros Hpl Htail. unfold piece_blocks.
  rewrite (proj2 (Z.ltb_ge _ _)) by lia.
  rewrite (proj2 (Z.eqb_neq _ _)) by lia.
  set (last_length := Info.length info mod Info.piece_length info) in *.
  assert (0 <= last_length) by (apply Z.mod_pos_bound; lia).
  assert (0 < last_length).
  { destruct (decide (last_length = 0)) as [E|E]; [|lia].
    rewrite E, Zmod_0_l in Htail. lia. }
  cbv zeta.
  rewrite (proj2 (Z.gtb_gt _ _)) by lia.
  pose proof (full_blocks_nonempty (tot - 1)
                (ceil_div last_length REQUEST_SIZE)) as Hne.
  destruct (full_blocks _ _); [|done].
  exfalso. apply Hne; [|done]. apply ceil_div_pos; [lia|]. by vm_compute.
Qed.

Lemma make_pieces_loop_last_raises info tot tpb e hashes :
  piece_blocks info tot tpb (tot - 1) = Raise e ->
  forall index pieces,
    hashes <> [] ->
    index + len hashes = tot ->
    make_pieces_loop info tot tpb index hashes pieces = Raise e.
Proof.
  intros Hlast. induction hashes as [|h rest IH]; intros index pieces Hne Hlen;
    [done|].
  simpl. unfold len in Hlen. simpl length in Hlen.
  destruct rest as [|h' rest'].
  - replace index with (tot - 1) by (simpl in Hlen; lia).
    by rewrite Hlast.
  - unfold piece_blocks at 1.
    rewrite (proj2 (Z.ltb_lt _ _)) by (simpl in Hlen; lia).
    simpl rbind. apply IH; [done|]. unfold len. simpl length in *. lia.
Qed.

(** Whenever the file does not end on a block boundary, [make_pieces]
    raises instead of returning the pieces. *)
Lemma make_pieces_short_tail info :
  Info.pieces info <> [] ->
  0 < Info.piece_length info ->
  0 < (Info.length info mod Info.piece_length info) mod REQUEST_SIZE ->
  make_pieces info = Raise (NameError "block").
Proof.
  intros Hne Hpl Htail. unfold make_pieces.
  apply make_pieces_loop_last_raises; [|done|lia].
  by apply piece_blocks_short_tail.
Qed.

Lemma full_blocks_wf index n : Forall block_wf (full_blocks index n).
Proof.
  unfold full_blocks. apply Forall_forall. intros b Hb.
  apply list_elem_of_fmap in Hb as (o & -> & _). apply block_wf_init.
Qed.

Lemma make_pieces_loop_wf info tot tpb hashes :
  forall index pieces ps,
    Forall piece_wf pieces ->
    make_pieces_loop info tot tpb index hashes pieces = Ok ps ->
    Forall piece_wf ps.
Proof.
  induction hashes as [|h rest IH]; intros index pieces ps Hwf; simpl.
  - by intros [= <-].
  - destruct (piece_blocks info tot tpb index) as [blocks|e] eqn:E; [|done].
    simpl. apply IH. apply Forall_app. split; [done|].
    constructor; [|constructor]. unfold piece_wf. simpl.
    unfold piece_blocks in E.
    destruct (index <? tot - 1); [injection E as <-; apply full_blocks_wf|].
    destruct (Info.piece_length info =? 0); [done|].
    cbv zeta in E. destruct (_ >? 0).
    + by destruct (full_blocks _ _).
    + injection E as <-. apply full_blocks_wf.
Qed.

(** The pieces [make_pieces] returns satisfy [piece_wf]. *)
Lemma make_pieces_wf info ps :
  make_pieces info = Ok ps -> Forall piece_wf ps.
Proof. unfold make_pieces. apply make_pieces_loop_wf. constructor. Qed.

End MakePieces.


(** C3, where [make_pieces] departs from it.  Whenever the file does not
    end on a block boundary (as in S1 and S3) it raises [NameError] and
    returns no pieces.  With a length that is a
    multiple of the piece length (S2) the last piece gets no blocks
    instead of [piece_length] bytes.  With a piece length off the block
    grid, the blocks of a non-last piece sum to more than the piece
    length. *)
Theorem make_pieces_departs_from_contract :
  (forall info,
      Info.pieces info <> [] ->
      0 < Info.piece_length info ->
      0 < (Info.length info mod Info.piece_length info) mod REQUEST_SIZE ->
      DownloadManager.make_pieces info = Raise (NameError "block"))
  /\ DownloadManager.make_pieces info_S1 = Raise (NameError "block")
  /\ DownloadManager.make_pieces info_S3 = Raise (NameError "block")
  /\ (exists p0 p1,
        DownloadManager.make_pieces info_S2 = Ok [p0; p1]
        /\ blocks_total p0 = 32768
        /\ Piece.blocks p1 = []
        /\ blocks_total p1 = 0
        /\ Info.length info_S2 - Info.piece_length info_S2 * (2 - 1) = 32768)
  /\ (exists p0 p1,
        DownloadManager.make_pieces info_odd_piece = Ok [p0; p1]
        /\ blocks_total p0 = 32768
        /\ Info.piece_length info_odd_piece = 20000).
Proof.
  split; [apply make_pieces_short_tail|].
  split; [vm_compute; reflexivity|].
  split; [vm_compute; reflexivity|].
  split.
  - eexists _, _. split; [vm_compute; reflexivity|].
    repeat split; vm_compute; reflexivity.
  - eexists _, _. split; [vm_compute; reflexivity|].
    repeat split; vm_compute; reflexivity.
Qed.

(** ** The download manager *)

(** The demo states are what the code produces. *)
Lemma demo_fresh_is_init : DownloadManager.init demo_info [] = Ok demo_fresh.
Proof. vm_compute. reflexivity. Qed.

Lemma demo_requested_first_reached :
  DownloadManager.next_request 0 "peer" demo_seeded
  = (Ok (Some (Block.mk 0 0 16384 Pending None)), demo_requested_first).
Proof. vm_compute. reflexivity. Qed.

Lemma demo_requested_second_reached :
  DownloadManager.next_request 1 "peer" demo_requested_first
  = (Ok (Some (Block.mk 0 16384 16384 Pending None)), demo_requested_second).
Proof. vm_compute. reflexivity. Qed.

Lemma demo_received_first_reached :
  DownloadManager.on_block_complete "peer" 0 0 ab demo_requested_first
  = (Ok tt, demo_received_first).
Proof. vm_compute. reflexivity. Qed.

Lemma demo_last_block_due_reached :
  DownloadManager.next_request 1 "peer" demo_received_first
  = (Ok (Some (Block.mk 0 16384 16384 Pending None)), demo_last_block_due).
Proof. vm_compute. reflexivity. Qed.

Lemma demo_after_last_block_reached :
  DownloadManager.on_block_complete "peer" 0 16384 c demo_last_block_due
  = (Raise (AttributeError "update_have_pieces"), demo_after_last_block).
Proof. vm_compute. reflexivity. Qed.

Section ManagerFacts.

Import DownloadManager.

Implicit Types (m : DownloadManager.t) (bf : bitfield).

(** *** next_request for a peer that never sent a bitfield *)

Lemma next_request_no_peer now peer_id m :
  peers m !! peer_id = None ->
  next_request now peer_id m = (Ok None, m).
Proof. intros H. unfold next_request. by rewrite H. Qed.

(** *** have_pieces is written nowhere *)

Lemma update_ongoing_pieces_have i o d m :
  have_pieces (snd (update_ongoing_pieces i o d m)) = have_pieces m.
Proof.
  unfold update_ongoing_pieces.
  destruct (filter _ (ongoing_pieces m)) as [|piece ?]; [done|].
  destruct (Piece.block_received o d piece) as [piece'|e]; [|done].
  destruct (Piece.is_complete piece'); [|done].
  destruct (Piece.is_hash_matching piece') as [[|]|e]; try done.
  unfold _write.
  destruct (_ <? 0); [done|].
  destruct (Piece.data piece'); done.
Qed.

Lemma on_block_complete_have peer_id i o d m :
  have_pieces (snd (on_block_complete peer_id i o d m)) = have_pieces m.
Proof.
  unfold on_block_complete.
  pose proof (update_ongoing_pieces_have i o d
                (remove_from_pending_pieces i o m)) as H.
  destruct (update_ongoing_pieces i o d _) as [[[?|]|e] m2]; exact H.
Qed.

(** *** _expired_request never hands out a block *)

Lemma expired_scan_no_block bf mpt current reqs :
  expired_scan bf mpt current reqs = Ok None
  \/ exists e, expired_scan bf mpt current reqs = Raise e.
Proof.
  induction reqs as [|r rest IH]; simpl; [by left|].
  destruct (getitem bf _) as [[|]|e]; simpl; eauto.
  destruct mpt as [mp|]; eauto.
  destruct (_ <? _); eauto.
Qed.

Lemma _expired_request_no_block now peer_id m :
  _expired_request now peer_id m = Ok None
  \/ exists e, _expired_request now peer_id m = Raise e.
Proof.
  unfold _expired_request, peer_bitfield.
  destruct (peers m !! peer_id); simpl; eauto.
  apply expired_scan_no_block.
Qed.

(** A request the asking peer can serve and that is older than the
    limit (whatever value the absent attribute is given) ends the scan
    with an exception. *)
Lemma expired_scan_raises bf mpt current reqs r :
  r ∈ reqs ->
  getitem bf (Block.piece (PendingRequest.block r)) = Ok true ->
  (forall mp, mpt = Some mp -> PendingRequest.added r + mp < current) ->
  exists e, expired_scan bf mpt current reqs = Raise e.
Proof.
  intros Hin Hbit Hold. induction reqs as [|x rest IH]; [by inversion Hin|].
  simpl.
  apply elem_of_cons in Hin as [->|Hrest].
  - rewrite Hbit. simpl. destruct mpt as [mp|]; eauto.
    rewrite (proj2 (Z.ltb_lt _ _)) by auto. eauto.
  - specialize (IH Hrest).
    destruct (getitem bf (Block.piece (PendingRequest.block x)))
      as [[|]|e]; simpl; eauto.
    destruct mpt as [mp|]; eauto.
    destruct (_ <? _); eauto.
Qed.

Lemma next_request_expired_raises now peer_id m bf r :
  peers m !! peer_id = Some bf ->
  r ∈ pending_blocks m ->
  getitem bf (Block.piece (PendingRequest.block r)) = Ok true ->
  (forall mp, max_pending_time m = Some mp ->
              PendingRequest.added r + mp < now) ->
  exists e, next_request now peer_id m = (Raise e, m).
Proof.
  intros Hp Hin Hbit Hold. unfold next_request. rewrite Hp.
  unfold _expired_request, peer_bitfield. rewrite Hp. simpl.
  destruct (expired_scan_raises bf (max_pending_time m) now
              (pending_blocks m) r Hin Hbit Hold) as [e ->].
  eauto.
Qed.

(** *** _next_missing records no pending request *)

Lemma _next_missing_pending peer_id m :
  pending_blocks (snd (_next_missing peer_id m)) = pending_blocks m.
Proof.
  unfold _next_missing.
  destruct (peer_bitfield peer_id m) as [bf|e]; [|done].
  destruct (missing_scan bf (missing_pieces m)) as [[[piece rest]|]|e]; try done.
  by destruct (Piece.next_request piece).
Qed.

End ManagerFacts.

(** C10: for every [peer_id] that is not a key of [peers],
    [next_request(peer_id)] returns none and leaves the manager, hence
    [missing_pieces], [ongoing_pieces], [have_pieces] and
    [pending_blocks], unchanged. *)
Theorem next_request_unregistered_peer
    (now : Z) (peer_id : string) (m : DownloadManager.t) :
  DownloadManager.peers m !! peer_id = None ->
  DownloadManager.next_request now peer_id m = (Ok None, m).
Proof. apply next_request_no_peer. Qed.

Lemma next_request_unregistered_peer_witness :
  DownloadManager.peers demo_seeded !! "stranger" = None
  /\ DownloadManager.next_request 7 "stranger" demo_seeded = (Ok None, demo_seeded).
Proof.
  split; [vm_compute; reflexivity|].
  apply (next_request_unregistered_peer 7 "stranger" demo_seeded).
  vm_compute. reflexivity.
Defined.

(** C9, where the code departs from it: [_next_missing] moves the first
    piece the peer has from [missing_pieces] to the end of
    [ongoing_pieces] and returns its first block, but it never touches
    [pending_blocks] -- in any state; [_next_ongoing] is the only place
    that appends a [PendingRequest].  On the two-piece torrent the first
    block of piece 0 is returned while [pending_blocks] stays empty. *)
Theorem next_missing_records_no_pending_request :
  (forall peer_id m,
      DownloadManager.pending_blocks (snd (DownloadManager._next_missing peer_id m))
      = DownloadManager.pending_blocks m)
  /\ DownloadManager.init demo_info [] = Ok demo_fresh
  /\ DownloadManager._expired_request 0 "peer" demo_seeded = Ok None
  /\ DownloadManager._next_ongoing 0 "peer" demo_seeded = (Ok None, demo_seeded)
  /\ DownloadManager.next_request 0 "peer" demo_seeded
     = (Ok (Some (Block.mk 0 0 16384 Pending None)), demo_requested_first)
  /\ DownloadManager.missing_pieces demo_requested_first = [demo_piece1]
  /\ DownloadManager.ongoing_pieces demo_requested_first
     = [demo_piece0 Pending None Missing None]
  /\ DownloadManager.pending_blocks demo_requested_first = [].
Proof.
  split; [apply _next_missing_pending|].
  split; [apply demo_fresh_is_init|].
  split; [vm_compute; reflexivity|].
  split; [vm_compute; reflexivity|].
  split; [apply demo_requested_first_reached|].
  repeat split.
Qed.

(** C5, where the code departs from it: [_expired_request] never returns
    a block, in any state.  A pending request that the asking peer can
    serve and that is past the limit makes [next_request] raise and leave
    the manager as it was, so no timestamp is reset.  On the two-piece
    torrent, with a request added at time 1 and the peer asking at time
    400000, the call raises [AttributeError] (the manager has no
    [max_pending_time]); were the attribute set to 300000 it would raise
    [NameError] ([logging] is not imported). *)
Theorem expired_request_is_never_reissued :
  (forall now peer_id m,
      DownloadManager._expired_request now peer_id m = Ok None
      \/ exists e, DownloadManager._expired_request now peer_id m = Raise e)
  /\ (forall now peer_id m bf r,
        DownloadManager.peers m !! peer_id = Some bf ->
        r ∈ DownloadManager.pending_blocks m ->
        getitem bf (Block.piece (PendingRequest.block r)) = Ok true ->
        (forall mp, DownloadManager.max_pending_time m = Some mp ->
                    PendingRequest.added r + mp < now) ->
        exists e, DownloadManager.next_request now peer_id m = (Raise e, m))
  /\ DownloadManager.next_request 1 "peer" demo_requested_first
     = (Ok (Some (Block.mk 0 16384 16384 Pending None)), demo_requested_second)
  /\ DownloadManager.pending_blocks demo_requested_second
     = [PendingRequest.mk (Block.mk 0 16384 16384 Pending None) 1]
  /\ 1 + MAX_PENDING_MS < 400000
  /\ DownloadManager.next_request 400000 "peer" demo_requested_second
     = (Raise (AttributeError "max_pending_time"), demo_requested_second)
  /\ DownloadManager.next_request 400000 "peer"
       (DownloadManager.set_max_pending_time (Some MAX_PENDING_MS)
                                             demo_requested_second)
     = (Raise (NameError "logging"),
        DownloadManager.set_max_pending_time (Some MAX_PENDING_MS)
                                             demo_requested_second).
Proof.
  split; [apply _expired_request_no_block|].
  split; [apply next_request_expired_raises|].
  split; [apply demo_requested_second_reached|].
  split; [reflexivity|].
  split; [by vm_compute|].
  split; vm_compute; reflexivity.
Qed.

(** C1, where the code departs from it: [on_block_complete] never changes
    [have_pieces], in any state.  When the block completes a piece that
    passes the hash check, the piece's bytes are written at
    [piece_index * piece_length] and the piece is removed from
    [ongoing_pieces]; then the call on line 128 names
    [update_have_pieces], which the manager does not define, and
    [AttributeError] is raised with the piece in none of the three
    collections.  [complete] is [len(have_pieces) == total_pieces], and
    stays false. *)
Theorem on_block_complete_never_fills_have_pieces :
  (forall peer_id i o d m,
      DownloadManager.have_pieces
        (snd (DownloadManager.on_block_complete peer_id i o d m))
      = DownloadManager.have_pieces m)
  /\ (forall m, DownloadManager.complete m = true
                <-> len (DownloadManager.have_pieces m)
                    = DownloadManager.total_pieces m)
  /\ Piece.block_received 16384 c (demo_piece0 Retrieved (Some ab) Pending None)
     = Ok (demo_piece0 Retrieved (Some ab) Retrieved (Some c))
  /\ Piece.is_complete (demo_piece0 Retrieved (Some ab) Retrieved (Some c)) = true
  /\ Piece.is_hash_matching (demo_piece0 Retrieved (Some ab) Retrieved (Some c))
     = Ok true
  /\ DownloadManager.on_block_complete "peer" 0 16384 c demo_last_block_due
     = (Raise (AttributeError "update_have_pieces"), demo_after_last_block)
  /\ DownloadManager.file demo_after_last_block
     = DownloadManager.pwrite [] (0 * Info.piece_length demo_info) (ab ++ c)
  /\ DownloadManager.ongoing_pieces demo_after_last_block = []
  /\ DownloadManager.have_pieces demo_after_last_block = []
  /\ DownloadManager.missing_pieces demo_after_last_block = [demo_piece1]
  /\ DownloadManager.complete demo_after_last_block = false.
Proof.
  split; [apply on_block_complete_have|].
  split; [intros m; unfold DownloadManager.complete; apply Z.eqb_eq|].
  split; [vm_compute; reflexivity|].
  split; [vm_compute; reflexivity|].
  split; [vm_compute; reflexivity|].
  split; [apply demo_after_last_block_reached|].
  split; [vm_compute; reflexivity|].
  repeat split.
Qed.

(** *** The partition invariant *)

Section Partition.

Import DownloadManager.

Implicit Types (m : DownloadManager.t) (bf : bitfield) (ps : list Piece.t).

Lemma update_first_map {A B} (g : A -> B) (P : A -> bool) f (l : list A) :
  (forall x, g (f x) = g x) -> map g (update_first P f l) = map g l.
Proof.
  intros Hg. induction l as [|x r IH]; simpl; [done|].
  destruct (P x); simpl; [by rewrite Hg|by rewrite IH].
Qed.

Lemma piece_next_request_index p :
  Piece.index (snd (Piece.next_request p)) = Piece.index p.
Proof. unfold Piece.next_request. by destruct (filter _ _). Qed.

Lemma piece_next_request_keys p :
  map block_key (Piece.blocks (snd (Piece.next_request p)))
  = map block_key (Piece.blocks p).
Proof.
  unfold Piece.next_request. destruct (filter _ _); [done|]. simpl.
  by apply update_first_map.
Qed.

Lemma piece_next_request_block p b p' :
  Piece.next_request p = (Some b, p') ->
  block_key b ∈ map block_key (Piece.blocks p).
Proof.
  unfold Piece.next_request.
  destruct (filter _ (Piece.blocks p)) as [|b0 l] eqn:E; [done|].
  intros [= <- <-].
  assert (b0 ∈ filter (fun b => Block.is_missing b = true) (Piece.blocks p)) as Hin
    by (rewrite E; left).
  apply list_elem_of_filter in Hin as [_ Hin].
  change (block_key (Block.set_status Pending b0)) with (block_key b0).
  apply list_elem_of_fmap. eauto.
Qed.

Lemma has_block_keys ps k :
  has_block ps k <-> exists p, p ∈ ps /\ k ∈ map block_key (Piece.blocks p).
Proof.
  unfold has_block. split.
  - intros (p & b & Hp & Hb & <-). exists p. split; [done|].
    apply list_elem_of_fmap. eauto.
  - intros (p & Hp & Hk). apply list_elem_of_fmap in Hk as (b & -> & Hb). eauto.
Qed.

Lemma has_block_app_l ps qs k : has_block ps k -> has_block (ps ++ qs) k.
Proof.
  intros (p & b & Hp & Hb). exists p, b. split; [|done].
  apply elem_of_app. by left.
Qed.

Lemma has_block_cons_keys p p' ps k :
  map block_key (Piece.blocks p') = map block_key (Piece.blocks p) ->
  has_block (p :: ps) k -> has_block (p' :: ps) k.
Proof.
  intros Hk. rewrite !has_block_keys. intros (q & Hq & Hin).
  apply elem_of_cons in Hq as [->|Hq].
  - exists p'. split; [left|]. by rewrite Hk.
  - exists q. split; [by right|done].
Qed.

Lemma has_block_tail p ps qs k :
  (has_block ps k -> has_block qs k) ->
  has_block (p :: ps) k -> has_block (p :: qs) k.
Proof.
  intros Himp (q & b & Hq & Hb). apply elem_of_cons in Hq as [->|Hq].
  - exists p, b. split; [left|done].
  - destruct Himp as (q' & b' & Hq' & Hb'); [by exists q, b|].
    exists q', b'. split; [by right|done].
Qed.

Lemma missing_scan_perm bf ps p rest :
  missing_scan bf ps = Ok (Some (p, rest)) -> ps ≡ₚ p :: rest.
Proof.
  revert p rest. induction ps as [|x r IH]; intros p rest; simpl; [done|].
  destruct (getitem bf (Piece.index x)) as [[|]|e]; simpl; try done.
  - by intros [= <- <-].
  - destruct (missing_scan bf r) as [[[q rest']|]|e]; simpl; try done.
    intros [= <- <-]. rewrite (IH q rest' eq_refl). apply Permutation_swap.
Qed.

Lemma ongoing_scan_spec bf ps b ps' :
  ongoing_scan bf ps = Ok (Some (b, ps')) ->
  map Piece.index ps' = map Piece.index ps
  /\ (forall k, has_block ps k -> has_block ps' k)
  /\ has_block ps' (block_key b).
Proof.
  revert b ps'. induction ps as [|x r IH]; intros b ps'; simpl; [done|].
  assert (Hcont :
    (let? r0 := ongoing_scan bf r in
     Ok (match r0 with
         | Some (b0, rest') => Some (b0, x :: rest')
         | None => None
         end)) = Ok (Some (b, ps')) ->
    map Piece.index ps' = Piece.index x :: map Piece.index r
    /\ (forall k, has_block (x :: r) k -> has_block ps' k)
    /\ has_block ps' (block_key b)).
  { destruct (ongoing_scan bf r) as [[[b0 rest']|]|e]; simpl; try done.
    intros [= <- <-]. destruct (IH b0 rest' eq_refl) as (Hi & Hk & Hb).
    split; [simpl; by rewrite Hi|].
    split; [intros k; apply has_block_tail, Hk|].
    destruct Hb as (q & b' & Hq & Hb'). exists q, b'. split; [by right|done]. }
  destruct (getitem bf (Piece.index x)) as [[|]|e]; simpl; try done.
  destruct (Piece.next_request x) as [[blk|] x'] eqn:E; [|done].
  intros [= <- <-].
  pose proof (piece_next_request_index x) as Hi.
  pose proof (piece_next_request_keys x) as Hk.
  pose proof (piece_next_request_block x blk x' E) as Hb.
  rewrite E in Hi, Hk. simpl in Hi, Hk.
  split; [simpl; by rewrite Hi|].
  split; [intros k; by apply has_block_cons_keys|].
  apply has_block_keys. exists x'. split; [left|]. by rewrite Hk.
Qed.

Lemma add_peer_partition peer_id bf m :
  partition_inv m -> partition_inv (add_peer peer_id bf m).
Proof. done. Qed.

Lemma _next_ongoing_partition now peer_id m :
  partition_inv m -> partition_inv (snd (_next_ongoing now peer_id m)).
Proof.
  intros Hinv. unfold _next_ongoing.
  destruct (peer_bitfield peer_id m) as [bf|e]; [|done].
  destruct (ongoing_scan bf (ongoing_pieces m)) as [[[b ps']|]|e] eqn:E;
    try done.
  apply ongoing_scan_spec in E as (Hi & Hk & Hb).
  destruct Hinv as (Hsz & Hperm & Hpend).
  assert (length ps' = length (ongoing_pieces m)) as Hlen
    by (rewrite <- (length_map Piece.index), Hi; apply length_map).
  unfold partition_inv, all_pieces in *. simpl.
  split; [unfold len in *; rewrite Hlen; exact Hsz|].
  split.
  - rewrite !map_app in *. by rewrite Hi.
  - apply Forall_app. split.
    + eapply Forall_impl; [exact Hpend|]. intros r. apply Hk.
    + by constructor.
Qed.

Lemma _next_missing_partition peer_id m :
  partition_inv m -> partition_inv (snd (_next_missing peer_id m)).
Proof.
  intros Hinv. unfold _next_missing.
  destruct (peer_bitfield peer_id m) as [bf|e]; [|done].
  destruct (missing_scan bf (missing_pieces m)) as [[[p rest]|]|e] eqn:E;
    try done.
  apply missing_scan_perm in E.
  pose proof (piece_next_request_index p) as Hi.
  destruct (Piece.next_request p) as [blk p']. simpl in Hi.
  destruct Hinv as (Hsz & Hperm & Hpend).
  unfold partition_inv, all_pieces in *. simpl.
  split.
  - apply Permutation_length in E. unfold len in *.
    rewrite length_app. simpl in *. lia.
  - split.
    + rewrite <- Hperm, E. rewrite !map_app. simpl. rewrite Hi.
      rewrite <- !app_assoc. simpl.
      rewrite <- !Permutation_middle. done.
    + eapply Forall_impl; [exact Hpend|]. intros r. apply has_block_app_l.
Qed.

Lemma next_request_partition now peer_id m :
  partition_inv m -> partition_inv (snd (next_request now peer_id m)).
Proof.
  intros Hinv. unfold next_request.
  destruct (peers m !! peer_id); [|done].
  destruct (_expired_request now peer_id m) as [[blk|]|e]; try done.
  pose proof (_next_ongoing_partition now peer_id m Hinv) as H1.
  destruct (_next_ongoing now peer_id m) as [[[blk|]|e] m1]; try done.
  by apply _next_missing_partition.
Qed.

Lemma has_block_shape ps qs k :
  map piece_shape qs = map piece_shape ps -> has_block ps k -> has_block qs k.
Proof.
  revert qs. induction ps as [|p r IH]; intros [|q qs] Hs; try done.
  injection Hs as Hi Hk Hr.
  intros H. apply (has_block_cons_keys p q qs k Hk).
  revert H. apply has_block_tail. by apply IH.
Qed.

Lemma partition_inv_ongoing_shape ps m :
  map piece_shape ps = map piece_shape (ongoing_pieces m) ->
  partition_inv m -> partition_inv (set_ongoing_pieces ps m).
Proof.
  intros Hs (Hsz & Hperm & Hpend).
  assert (map Piece.index ps = map Piece.index (ongoing_pieces m)) as Hi.
  { change Piece.index with (fun p => fst (piece_shape p)).
    rewrite <- !(map_map piece_shape fst). by rewrite Hs. }
  assert (length ps = length (ongoing_pieces m)) as Hlen
    by (rewrite <- (length_map Piece.index), Hi; apply length_map).
  unfold partition_inv, all_pieces in *. simpl.
  split; [unfold len in *; rewrite Hlen; exact Hsz|].
  split; [rewrite !map_app in *; by rewrite Hi|].
  eapply Forall_impl; [exact Hpend|]. intros r. by apply has_block_shape.
Qed.

Lemma update_first_const_map {A B} (g : A -> B) (P : A -> bool) y (l : list A) x0 t :
  filter (fun x => P x = true) l = x0 :: t ->
  g y = g x0 ->
  map g (update_first P (fun _ => y) l) = map g l.
Proof.
  intros Hf Hg. induction l as [|x r IH]; [done|]. simpl.
  rewrite filter_cons in Hf. destruct (P x) eqn:E.
  - destruct (decide (true = true)); [|done].
    injection Hf as -> _. simpl. by rewrite Hg.
  - destruct (decide (false = true)); [done|]. simpl. by rewrite IH.
Qed.

Lemma update_first_const_filter {A} (P : A -> bool) y (l : list A) x0 t :
  filter (fun x => P x = true) l = x0 :: t ->
  P y = true ->
  filter (fun x => P x = true) (update_first P (fun _ => y) l) = y :: t.
Proof.
  intros Hf Hy. induction l as [|x r IH]; [done|]. simpl.
  rewrite filter_cons in Hf. destruct (P x) eqn:E.
  - destruct (decide (true = true)); [|done].
    injection Hf as _ <-. by rewrite filter_cons_True.
  - destruct (decide (false = true)); [done|].
    rewrite filter_cons_False by (rewrite E; done). by apply IH.
Qed.

Lemma filter_head_holds {A} (P : A -> bool) (l : list A) x0 t :
  filter (fun x => P x = true) l = x0 :: t -> P x0 = true.
Proof.
  intros Hf.
  assert (x0 ∈ filter (fun x => P x = true) l) as Hin by (rewrite Hf; left).
  by apply list_elem_of_filter in Hin as [? _].
Qed.

Lemma Forall_remove_first {A} (Q : A -> Prop) (P : A -> bool) (l : list A) :
  Forall Q l -> Forall Q (remove_first P l).
Proof.
  induction 1 as [|x r Hx Hr IH]; simpl; [constructor|].
  destruct (P x); [done|by constructor].
Qed.

Lemma block_received_shape o d p p' :
  Piece.block_received o d p = Ok p' -> piece_shape p' = piece_shape p.
Proof.
  unfold Piece.block_received. destruct (filter _ _); [done|].
  intros [= <-]. unfold piece_shape. simpl. f_equal.
  by apply update_first_map.
Qed.

Lemma reset_shape p : piece_shape (Piece.reset p) = piece_shape p.
Proof.
  unfold piece_shape, Piece.reset. simpl. f_equal.
  rewrite map_map. by apply map_ext.
Qed.

Lemma remove_from_pending_pieces_partition i o m :
  partition_inv m -> partition_inv (remove_from_pending_pieces i o m).
Proof.
  intros (Hsz & Hperm & Hpend). split; [done|]. split; [done|].
  simpl. by apply Forall_remove_first.
Qed.

(** While it does not complete and verify a piece, [update_ongoing_pieces]
    keeps the invariant -- also when it raises. *)
Lemma update_ongoing_pieces_partition i o d m :
  partition_inv m ->
  (forall p, fst (update_ongoing_pieces i o d m) <> Ok (Some p)) ->
  partition_inv (snd (update_ongoing_pieces i o d m)).
Proof.
  intros Hinv. unfold update_ongoing_pieces.
  destruct (filter _ (ongoing_pieces m)) as [|piece t] eqn:Hf; [done|].
  destruct (Piece.block_received o d piece) as [piece'|e] eqn:Hrecv; [|done].
  apply block_received_shape in Hrecv.
  assert (has_index i piece' = true) as Hidx.
  { apply filter_head_holds in Hf. unfold has_index in *.
    injection Hrecv as Hi _. by rewrite Hi. }
  set (m1 := set_ongoing_pieces _ m).
  assert (partition_inv m1) as Hinv1.
  { apply partition_inv_ongoing_shape; [|done].
    by apply (update_first_const_map piece_shape _ _ _ piece t). }
  destruct (Piece.is_complete piece'); [|done].
  destruct (Piece.is_hash_matching piece') as [[|]|e]; [| |done].
  - destruct (_write piece' m1); [|done]. simpl. intros H. by destruct (H piece').
  - intros _. simpl. apply partition_inv_ongoing_shape; [|done].
    apply (update_first_const_map piece_shape _ _ _ piece' t).
    + by apply (update_first_const_filter _ _ _ piece t).
    + apply reset_shape.
Qed.

(** [on_block_complete] keeps the invariant on every path but the one
    that ends in [AttributeError]. *)
Lemma on_block_complete_partition peer_id i o d m :
  partition_inv m ->
  fst (on_block_complete peer_id i o d m)
    <> Raise (AttributeError "update_have_pieces") ->
  partition_inv (snd (on_block_complete peer_id i o d m)).
Proof.
  intros Hinv. unfold on_block_complete.
  pose proof (update_ongoing_pieces_partition i o d
                (remove_from_pending_pieces i o m)
                (remove_from_pending_pieces_partition i o m Hinv)) as H.
  destruct (update_ongoing_pieces i o d _) as [[[p|]|e] m2]; simpl in *.
  - done.
  - intros _. apply H. done.
  - intros _. apply H. done.
Qed.

End Partition.

Lemma demo_last_block_due_partition : partition_inv demo_last_block_due.
Proof.
  split; [reflexivity|]. split.
  - apply Permutation_swap.
  - constructor; [|constructor].
    exists (demo_piece0 Retrieved (Some ab) Pending None),
           (Block.mk 0 16384 16384 Pending None).
    split; [left|]. split; [right; left|reflexivity].
Qed.

(** C4, where the code departs from it: [add_peer] and [next_request]
    keep the partition invariant, and so does [on_block_complete] on
    every path but one.  When the block completes a piece that passes the
    hash check, the piece leaves [ongoing_pieces] and, the call to the
    undefined [update_have_pieces] raising [AttributeError], enters
    [have_pieces] never: on the two-piece torrent the three collections
    then hold one piece of two. *)
Theorem partition_lost_on_piece_completion :
  (forall peer_id bf m,
      partition_inv m -> partition_inv (DownloadManager.add_peer peer_id bf m))
  /\ (forall now peer_id m,
        partition_inv m ->
        partition_inv (snd (DownloadManager.next_request now peer_id m)))
  /\ (forall peer_id i o d m,
        partition_inv m ->
        fst (DownloadManager.on_block_complete peer_id i o d m)
          <> Raise (AttributeError "update_have_pieces") ->
        partition_inv (snd (DownloadManager.on_block_complete peer_id i o d m)))
  /\ partition_inv demo_last_block_due
  /\ DownloadManager.on_block_complete "peer" 0 16384 c demo_last_block_due
     = (Raise (AttributeError "update_have_pieces"), demo_after_last_block)
  /\ len (DownloadManager.missing_pieces demo_after_last_block)
     + len (DownloadManager.ongoing_pieces demo_after_last_block)
     + len (DownloadManager.have_pieces demo_after_last_block) = 1
  /\ DownloadManager.total_pieces demo_after_last_block = 2
  /\ ~ partition_inv demo_after_last_block.
Proof.
  split; [apply add_peer_partition|].
  split; [apply next_request_partition|].
  split; [apply on_block_complete_partition|].
  split; [apply demo_last_block_due_partition|].
  split; [apply demo_after_last_block_reached|].
  split; [reflexivity|].
  split; [reflexivity|].
  intros (Hsz & _). vm_compute in Hsz. discriminate.
Qed.

(** ** The peer stream framer *)

Section Framer.

Import PeerStreamIterator.

(** [parse] leaves the buffer alone whenever it returns no message. *)
Lemma parse_none_keeps_buffer buf buf' :
  parse buf = (Ok None, buf') -> buf' = buf.
Proof.
  unfold parse.
  destruct (len buf >? 4); [|congruence].
  destruct (Codec.unpack (take 4 buf) =? 0); [congruence|].
  destruct (len buf >=? Codec.unpack (take 4 buf)); [|congruence].
  cbv zeta.
  repeat match goal with
         | |- context [if ?c then _ else _] => destruct c
         | |- context [rbind ?d _] => destruct d; simpl
         end; congruence.
Qed.

(** A demand made while the buffer holds bytes that do not parse never
    reads from the stream and never returns. *)
Lemma anext_spins fuel it :
  buffer it <> [] ->
  fst (parse (buffer it)) = Ok None ->
  __anext__ fuel it = (Running, it).
Proof.
  intros Hne Hp. induction fuel as [|n IH]; [done|].
  simpl. destruct (buffer it) as [|b bs] eqn:Hb; [done|].
  destruct (parse (b :: bs)) as [r buf'] eqn:E. simpl in Hp. subst r.
  apply parse_none_keeps_buffer in E as ->.
  rewrite <- Hb. destruct it as [rd bf]. simpl in *. exact IH.
Qed.

Lemma keep_alive_repeats n :
  collect n 1 (mk [] (concat keep_alive_first))
  = (repeat KeepAliveMessage n, Running).
Proof.
  induction n as [|n IH]; [done|].
  change (collect (S n) 1 (mk [] (concat keep_alive_first)))
    with (let '(ms, o) := collect n 1 (mk [] (concat keep_alive_first)) in
          (KeepAliveMessage :: ms, o)).
  by rewrite IH.
Qed.

End Framer.

(** C7, where the code departs from it.  Each stream below is a chunking
    of well-formed frames.
    - A first read that does not hold a whole frame ends the sequence:
      [__anext__] raises [StopAsyncIteration] after the failed [parse]
      instead of reading on.
    - A demand made while the buffer holds part of a frame loops without
      reading, whatever the fuel: after Unchoke is yielded the next demand
      never returns.
    - A keep-alive is returned without being consumed, so it is yielded
      on every demand and the frame behind it is never reached.
    - [parse] tests the buffer against [message_length], not
      [4 + message_length]: Have(7) is taken from 5 of its 9 bytes, which
      are consumed (the decoder, as the spec describes it, then rejects
      the truncated frame, which ends the sequence).
    - Delivered whole, Unchoke and Interested are yielded in order. *)
Theorem framer_depends_on_chunking :
  (concat split_prefix = stream_of [InterestedMessage]
   /\ PeerStreamIterator.collect 2 2 (chunked split_prefix)
      = ([], PeerStreamIterator.StopAsyncIteration))
  /\ (concat split_second = stream_of [UnchokeMessage; InterestedMessage]
      /\ PeerStreamIterator.__anext__ 1 (chunked split_second)
         = (PeerStreamIterator.Yield UnchokeMessage,
            PeerStreamIterator.mk [[x00; x00; x01; x02]] [x00])
      /\ forall fuel,
          PeerStreamIterator.__anext__ fuel
            (PeerStreamIterator.mk [[x00; x00; x01; x02]] [x00])
          = (PeerStreamIterator.Running,
             PeerStreamIterator.mk [[x00; x00; x01; x02]] [x00]))
  /\ (concat keep_alive_first = stream_of [KeepAliveMessage; InterestedMessage]
      /\ PeerStreamIterator.__anext__ 1 (chunked keep_alive_first)
         = (PeerStreamIterator.Yield KeepAliveMessage,
            PeerStreamIterator.mk [] (concat keep_alive_first))
      /\ forall n,
          PeerStreamIterator.collect n 1
            (PeerStreamIterator.mk [] (concat keep_alive_first))
          = (repeat KeepAliveMessage n, PeerStreamIterator.Running))
  /\ (concat split_payload = stream_of [HaveMessage 7]
      /\ snd (PeerStreamIterator.parse [x00; x00; x00; x05; x04]) = []
      /\ PeerStreamIterator.collect 2 2 (chunked split_payload)
         = ([], PeerStreamIterator.StopAsyncIteration))
  /\ (concat whole = stream_of [UnchokeMessage; InterestedMessage]
      /\ PeerStreamIterator.collect 3 1 (chunked whole)
         = ([UnchokeMessage; InterestedMessage],
            PeerStreamIterator.StopAsyncIteration)).
Proof.
  split; [split; vm_compute; reflexivity|].
  split.
  { split; [vm_compute; reflexivity|].
    split; [vm_compute; reflexivity|].
    intros fuel. apply anext_spins; [done|vm_compute; reflexivity]. }
  split.
  { split; [vm_compute; reflexivity|].
    split; [vm_compute; reflexivity|].
    apply keep_alive_repeats. }
  split; [repeat split; vm_compute; reflexivity|].
  split; vm_compute; reflexivity.
Qed.

(** ** The peer session *)

Section Session.

Import PeerConnection.

Implicit Types (c : PeerConnection.t).

Lemma dispatch_have i c :
  dispatch (HaveMessage i) c = (Raise (AttributeError "update_peer"), c).
Proof. reflexivity. Qed.

Lemma discard_writer x c : writer (discard x c) = writer c.
Proof. unfold discard, remove. by destruct (has x c). Qed.

(** [dispatch] writes nothing but, on a BitField, an Interested. *)
Lemma dispatch_gated msg c :
  Forall request_gated (writer c) ->
  Forall request_gated (writer (snd (dispatch msg c))).
Proof.
  intros H. destruct msg; simpl; try done; try by rewrite discard_writer.
  - destruct (has PeerState.Interested c); simpl; [done|].
    apply Forall_app. split; [done|]. by repeat constructor.
  - unfold remove. destruct (has PeerState.PendingRequest c); [|done].
    simpl. by destruct (DownloadManager.on_block_complete _ _ _ _ _).
Qed.

Lemma send_request_gated now c g :
  current_state c = g ++ [PeerState.PendingRequest] ->
  PeerState.Choked ∉ g ->
  PeerState.Interested ∈ g ->
  PeerState.PendingRequest ∉ g ->
  Forall request_gated (writer c) ->
  Forall request_gated (writer (snd (send_request now c))).
Proof.
  intros Hst Hc Hi Hp H. unfold send_request.
  destruct (DownloadManager.next_request now (remote_id c) (download_manager c))
    as [[[blk|]|e] m]; simpl; try done.
  apply Forall_app. split; [done|]. constructor; [|constructor].
  unfold request_gated. simpl. split.
  - rewrite Hst. rewrite elem_of_app, list_elem_of_singleton.
    intros [?|?]; [done|discriminate].
  - by exists g.
Qed.

Lemma handle_one_gated now msg c :
  Forall request_gated (writer c) ->
  Forall request_gated (writer (snd (handle_one now msg c))).
Proof.
  intros H. unfold handle_one.
  pose proof (dispatch_gated msg c H) as H1.
  destruct (dispatch msg c) as [[[]|e] c1]; simpl in *; [|done].
  destruct (can_request c1) eqn:Hcan; [|done].
  destruct (has PeerState.PendingRequest c1) eqn:Hpend; [done|].
  unfold can_request, has in *.
  apply andb_prop in Hcan as [Hch Hin].
  apply negb_true_iff, bool_decide_eq_false in Hch.
  apply bool_decide_eq_true in Hin.
  apply bool_decide_eq_false in Hpend.
  by apply (send_request_gated now _ (current_state c1)).
Qed.

Lemma handle_message_gated inputs c :
  Forall request_gated (writer c) ->
  Forall request_gated (writer (snd (handle_message inputs c))).
Proof.
  revert c. induction inputs as [|a rest IH]; intros c H; simpl; [done|].
  set (c0 := set_manager _ c).
  destruct (has PeerState.Stopped c0); [done|].
  pose proof (handle_one_gated (at_time a) (message a) c0 H) as H1.
  destruct (handle_one (at_time a) (message a) c0) as [[[]|e] c1]; [|done].
  by apply IH.
Qed.

End Session.

(** C6, where the code departs from it: the session does call
    [update_peer(remote_id, i)] for every Have(i), but [DownloadManager]
    defines no [update_peer]; the call raises [AttributeError], the
    stored bitfield is not changed, and the session's loop ends.  A peer
    that advertised only piece 0 and then sends Have(1) is still recorded
    without piece 1. *)
Theorem have_message_updates_no_bitfield :
  (forall i c,
      PeerConnection.dispatch (HaveMessage i) c
      = (Raise (AttributeError "update_peer"), c))
  /\ fst (PeerConnection.handle_message
            [arrives 0 (BitFieldMessage [true; false]);
             arrives 1 (HaveMessage 1)]
            (PeerConnection.start "peer" demo_fresh))
     = Raise (AttributeError "update_peer")
  /\ DownloadManager.peers
       (PeerConnection.download_manager
          (snd (PeerConnection.handle_message
                  [arrives 0 (BitFieldMessage [true; false]);
                   arrives 1 (HaveMessage 1)]
                  (PeerConnection.start "peer" demo_fresh)))) !! "peer"
     = Some [true; false].
Proof.
  split; [apply dispatch_have|].
  split; vm_compute; reflexivity.
Qed.

(** C8: whatever messages arrive, in whatever state the session and the
    manager are, and whatever the other sessions do to the manager in
    between, every Request the session writes is written with Choked
    absent from its state set, after a gate that found [can_request()]
    (Choked absent, Interested present) and PendingRequest absent.  A
    peer that sends BitField and then Unchoke is sent a Request; one that
    sends BitField and Interested but never Unchoke is sent none. *)
Theorem no_request_while_choked :
  (forall inputs st remote m,
      Forall request_gated
        (PeerConnection.writer
           (snd (PeerConnection.handle_message inputs
                   (PeerConnection.mk st remote m [])))))
  /\ PeerConnection.writer
       (snd (PeerConnection.handle_message
               [arrives 0 (BitFieldMessage [true; true]);
                arrives 1 UnchokeMessage]
               (PeerConnection.start "peer" demo_fresh)))
     = [PeerConnection.Sent [PeerState.Interested; PeerState.PendingRequest]
                            (RequestMessage 0 0 16384)]
  /\ PeerConnection.writer
       (snd (PeerConnection.handle_message
               [arrives 0 (BitFieldMessage [true; true]);
                arrives 1 InterestedMessage]
               (PeerConnection.start "peer" demo_fresh)))
     = [].
Proof.
  split.
  - intros inputs st remote m. apply handle_message_gated. constructor.
  - split; vm_compute; reflexivity.
Qed.

(** * Further properties *)

(** ** Piece: requests, receipts, reset *)

Section PieceOperations.

Implicit Types (b : Block.t) (p : Piece.t) (bs : list Block.t).

Lemma filter_first_split {A} (P : A -> bool) (l : list A) x t :
  filter (fun y => P y = true) l = x :: t ->
  exists pre post,
    l = pre ++ x :: post
    /\ Forall (fun y => P y = false) pre
    /\ P x = true
    /\ t = filter (fun y => P y = true) post.
Proof.
  induction l as [|y r IH]; [done|].
  rewrite filter_cons. destruct (P y) eqn:E.
  - destruct (decide (true = true)); [|done].
    intros [= -> <-]. by exists [], r.
  - destruct (decide (false = true)); [done|].
    intros H. destruct (IH H) as (pre & post & -> & Hpre & Hx & Ht).
    exists (y :: pre), post. split; [done|]. split; [by constructor|done].
Qed.

Lemma filter_nil_Forall {A} (P : A -> bool) (l : list A) :
  filter (fun y => P y = true) l = [] <-> Forall (fun y => P y = false) l.
Proof.
  induction l as [|y r IH]; [split; [constructor|done]|].
  rewrite filter_cons. destruct (P y) eqn:E.
  - destruct (decide (true = true)); [|done].
    split; [done|]. inversion 1; congruence.
  - destruct (decide (false = true)); [done|].
    rewrite IH. split; [by constructor|by inversion 1].
Qed.

Lemma update_first_split {A} (P : A -> bool) f (pre post : list A) x :
  Forall (fun y => P y = false) pre -> P x = true ->
  update_first P f (pre ++ x :: post) = pre ++ f x :: post.
Proof.
  intros Hpre Hx. induction Hpre as [|y r Hy Hr IH]; simpl.
  - by rewrite Hx.
  - by rewrite Hy, IH.
Qed.

Lemma update_first_none {A} (P : A -> bool) f (l : list A) :
  Forall (fun y => P y = false) l -> update_first P f l = l.
Proof.
  induction 1 as [|y r Hy Hr IH]; simpl; [done|]. by rewrite Hy, IH.
Qed.

Lemma filter_split_first {A} (P : A -> bool) (pre post : list A) x :
  Forall (fun y => P y = false) pre -> P x = true ->
  filter (fun y => P y = true) (pre ++ x :: post)
  = x :: filter (fun y => P y = true) post.
Proof.
  intros Hpre Hx. rewrite filter_app, filter_cons_True by done.
  by rewrite (proj2 (filter_nil_Forall P pre) Hpre).
Qed.

Lemma is_missing_false b : Block.is_missing b = false <-> Block.status b <> Missing.
Proof. unfold Block.is_missing. apply bool_decide_eq_false. Qed.

Lemma is_missing_true b : Block.is_missing b = true <-> Block.status b = Missing.
Proof. unfold Block.is_missing. apply bool_decide_eq_true. Qed.

Lemma next_request_found idx h pre b post :
  Forall (fun x => Block.is_missing x = false) pre ->
  Block.is_missing b = true ->
  Piece.next_request (Piece.mk idx (pre ++ b :: post) h)
  = (Some (Block.set_status Pending b),
     Piece.mk idx (pre ++ Block.set_status Pending b :: post) h).
Proof.
  intros Hpre Hb. unfold Piece.next_request. simpl.
  rewrite filter_split_first by done.
  by rewrite update_first_split.
Qed.

Lemma next_request_none p :
  Forall (fun x => Block.is_missing x = false) (Piece.blocks p) ->
  Piece.next_request p = (None, p).
Proof.
  intros H. unfold Piece.next_request.
  by rewrite (proj2 (filter_nil_Forall _ _) H).
Qed.

End PieceOperations.

(** X1: [Piece.next_request] returns none, and leaves the piece as it
    is, exactly when no block is Missing; otherwise it returns the first
    Missing block in list order, marked Pending, and changes the status
    of that block only. *)
Theorem piece_next_request_first_missing (p : Piece.t) :
  match Piece.next_request p with
  | (None, p') =>
      p' = p /\ Forall (fun x => Block.status x <> Missing) (Piece.blocks p)
  | (Some b, p') =>
      exists pre b0 post,
        Piece.blocks p = pre ++ b0 :: post
        /\ Forall (fun x => Block.status x <> Missing) pre
        /\ Block.status b0 = Missing
        /\ b = Block.set_status Pending b0
        /\ p' = Piece.mk (Piece.index p) (pre ++ b :: post) (Piece.hash p)
  end.
Proof.
  destruct (filter (fun b => Block.is_missing b = true) (Piece.blocks p))
    as [|b0 t] eqn:E.
  - apply filter_nil_Forall in E.
    rewrite next_request_none by done. split; [done|].
    eapply Forall_impl; [exact E|]. intros x. apply is_missing_false.
  - apply filter_first_split in E as (pre & post & Hb & Hpre & Hb0 & _).
    destruct p as [idx bs h]. simpl in *. subst bs.
    rewrite next_request_found by done.
    exists pre, b0, post. split; [done|]. split.
    + eapply Forall_impl; [exact Hpre|]. intros x. apply is_missing_false.
    + split; [by apply is_missing_true|done].
Qed.

Section HandOut.

Implicit Types (b : Block.t) (p : Piece.t).

Lemma mark_pending_not_missing b :
  Block.is_missing b = false -> mark_pending b = b.
Proof. unfold mark_pending. by intros ->. Qed.

Lemma mark_pending_missing b :
  Block.is_missing b = true -> mark_pending b = Block.set_status Pending b.
Proof. unfold mark_pending. by intros ->. Qed.

Lemma map_mark_pending_none (l : list Block.t) :
  Forall (fun x => Block.is_missing x = false) l -> map mark_pending l = l.
Proof.
  induction 1 as [|x r Hx Hr IH]; simpl; [done|].
  by rewrite mark_pending_not_missing, IH.
Qed.

Lemma with_blocks_same p : Piece.with_blocks (Piece.blocks p) p = p.
Proof. by destruct p. Qed.

Lemma hand_out_all n :
  forall p,
    (length (filter (fun x => Block.is_missing x = true) (Piece.blocks p)) <= n)%nat ->
    hand_out n p
    = (map (Block.set_status Pending)
           (filter (fun x => Block.is_missing x = true) (Piece.blocks p)),
       Piece.with_blocks (map mark_pending (Piece.blocks p)) p).
Proof.
  induction n as [|n IH]; intros p Hn.
  - destruct (filter _ (Piece.blocks p)) as [|b0 t] eqn:E; [|simpl in Hn; lia].
    apply filter_nil_Forall in E. simpl.
    by rewrite map_mark_pending_none, with_blocks_same.
  - destruct (filter (fun x => Block.is_missing x = true) (Piece.blocks p))
      as [|b0 t] eqn:E.
    + apply filter_nil_Forall in E. simpl. rewrite next_request_none by done.
      by rewrite map_mark_pending_none, with_blocks_same.
    + apply filter_first_split in E as (pre & post & Hb & Hpre & Hb0 & ->).
      destruct p as [idx bs h]. simpl in *. subst bs.
      rewrite next_request_found by done.
      assert (filter (fun x => Block.is_missing x = true)
                     (pre ++ Block.set_status Pending b0 :: post)
              = filter (fun x => Block.is_missing x = true) post) as Hf.
      { rewrite filter_app, filter_cons_False by done.
        by rewrite (proj2 (filter_nil_Forall _ pre) Hpre). }
      rewrite IH by (simpl; rewrite Hf; lia).
      simpl. rewrite Hf. unfold Piece.with_blocks. simpl.
      rewrite !map_app. simpl.
      rewrite (mark_pending_missing b0) by done.
      by rewrite (mark_pending_not_missing (Block.set_status Pending b0)).
Qed.

End HandOut.

(** X2: asked as many times as it has blocks, a piece hands out exactly
    its Missing blocks, each once, in list order and marked Pending; the
    other blocks are untouched, and a further request returns none. *)
Theorem piece_hands_out_each_missing_block_once (p : Piece.t) :
  hand_out (length (Piece.blocks p)) p
  = (map (Block.set_status Pending)
         (filter (fun x => Block.is_missing x = true) (Piece.blocks p)),
     Piece.with_blocks (map mark_pending (Piece.blocks p)) p)
  /\ Piece.next_request (snd (hand_out (length (Piece.blocks p)) p))
     = (None, snd (hand_out (length (Piece.blocks p)) p)).
Proof.
  assert (H : hand_out (length (Piece.blocks p)) p
              = (map (Block.set_status Pending)
                     (filter (fun x => Block.is_missing x = true) (Piece.blocks p)),
                 Piece.with_blocks (map mark_pending (Piece.blocks p)) p))
    by (apply hand_out_all, length_filter).
  split; [exact H|]. rewrite H. simpl.
  apply next_request_none. simpl.
  apply Forall_forall. intros x Hx.
  apply list_elem_of_fmap in Hx as (y & -> & _).
  unfold mark_pending. destruct (Block.is_missing y) eqn:E; [done|exact E].
Qed.

Section Receipts.

Implicit Types (b : Block.t) (p : Piece.t).

Lemma update_first_twice {A} (P : A -> bool) f g (l : list A) :
  (forall x, P (f x) = P x) ->
  update_first P g (update_first P f l) = update_first P (fun x => g (f x)) l.
Proof.
  intros Hf. induction l as [|x r IH]; simpl; [done|].
  destruct (P x) eqn:E; simpl.
  - by rewrite Hf, E.
  - by rewrite E, IH.
Qed.

Lemma update_first_ext {A} (P : A -> bool) f g (l : list A) :
  (forall x, f x = g x) -> update_first P f l = update_first P g l.
Proof.
  intros H. induction l as [|x r IH]; simpl; [done|].
  by rewrite H, IH.
Qed.

Lemma filter_update_first_nonempty {A} (P : A -> bool) f (l : list A) :
  (forall x, P (f x) = P x) ->
  filter (fun y => P y = true) l <> [] ->
  filter (fun y => P y = true) (update_first P f l) <> [].
Proof.
  intros Hf. induction l as [|x r IH]; simpl; [done|].
  destruct (P x) eqn:E.
  - intros _. rewrite filter_cons_True by (by rewrite Hf). done.
  - rewrite !filter_cons_False by (by rewrite E). exact IH.
Qed.

Lemma block_received_blocks o d p p' :
  Piece.block_received o d p = Ok p' ->
  filter (fun x => Block.at_offset o x = true) (Piece.blocks p) <> []
  /\ p' = Piece.with_blocks
            (update_first (Block.at_offset o) (Block.retrieve d) (Piece.blocks p))
            p.
Proof.
  unfold Piece.block_received.
  destruct (filter _ (Piece.blocks p)); [done|]. by intros [= <-].
Qed.

Lemma block_received_ok o d p :
  filter (fun x => Block.at_offset o x = true) (Piece.blocks p) <> [] ->
  Piece.block_received o d p
  = Ok (Piece.with_blocks
          (update_first (Block.at_offset o) (Block.retrieve d) (Piece.blocks p))
          p).
Proof.
  intros H. unfold Piece.block_received.
  by destruct (filter _ (Piece.blocks p)).
Qed.

Lemma block_received_again o d d2 p p' :
  Piece.block_received o d p = Ok p' ->
  Piece.block_received o d2 p' = Piece.block_received o d2 p.
Proof.
  intros H. apply block_received_blocks in H as [Hne ->].
  rewrite (block_received_ok o d2 p) by done.
  rewrite block_received_ok.
  - simpl. unfold Piece.with_blocks. simpl. do 2 f_equal.
    rewrite update_first_twice by done.
    by apply update_first_ext.
  - simpl. by apply filter_update_first_nonempty.
Qed.

Lemma insert_by_offset_map (f : Block.t -> Block.t) b (l : list Block.t) :
  (forall x, Block.offset (f x) = Block.offset x) ->
  Piece.insert_by_offset (f b) (map f l) = map f (Piece.insert_by_offset b l).
Proof.
  intros Hf. induction l as [|x r IH]; simpl; [done|].
  rewrite !Hf. destruct (_ <=? _); simpl; [done|]. by rewrite IH.
Qed.

Lemma sorted_blocks_map (f : Block.t -> Block.t) p :
  (forall x, Block.offset (f x) = Block.offset x) ->
  Piece.sorted_blocks (Piece.with_blocks (map f (Piece.blocks p)) p)
  = map f (Piece.sorted_blocks p).
Proof.
  intros Hf. unfold Piece.sorted_blocks. simpl.
  induction (Piece.blocks p) as [|x r IH]; simpl; [done|].
  by rewrite IH, insert_by_offset_map.
Qed.

Lemma join_result (ds : list (option bytes)) :
  (None ∈ ds /\ Piece.join ds = Raise TypeError)
  \/ (exists l, ds = map Some l /\ Piece.join ds = Ok (concat l)).
Proof.
  induction ds as [|[d|] r IH]; simpl.
  - right. by exists [].
  - destruct IH as [[Hin ->]|(l & -> & ->)]; simpl.
    + left. split; [by right|done].
    + right. by exists (d :: l).
  - left. split; [left|done].
Qed.

End Receipts.

(** X3: a block can be delivered again: once [block_received(offset, d)]
    has stored a block, a later delivery for the same offset does what it
    would have done on the piece before -- it overwrites the bytes of the
    same block (also when that block is already Retrieved), and delivering
    the same bytes twice leaves the piece as after the first delivery. *)
Theorem block_received_last_delivery_wins
    (o : Z) (d d2 : bytes) (p p' : Piece.t) :
  Piece.block_received o d p = Ok p' ->
  Piece.block_received o d2 p' = Piece.block_received o d2 p
  /\ Piece.block_received o d p' = Ok p'.
Proof.
  intros H. split; [by apply (block_received_again o d)|].
  by rewrite (block_received_again o d d p p' H).
Qed.

Lemma block_received_last_delivery_wins_witness :
  Piece.block_received 0 ab (demo_piece0 Pending None Missing None)
  = Ok (demo_piece0 Retrieved (Some ab) Missing None)
  /\ (Piece.block_received 0 c (demo_piece0 Retrieved (Some ab) Missing None)
      = Piece.block_received 0 c (demo_piece0 Pending None Missing None)
      /\ Piece.block_received 0 ab (demo_piece0 Retrieved (Some ab) Missing None)
         = Ok (demo_piece0 Retrieved (Some ab) Missing None)).
Proof.
  split; [reflexivity|].
  apply (block_received_last_delivery_wins 0 ab c
           (demo_piece0 Pending None Missing None)
           (demo_piece0 Retrieved (Some ab) Missing None)).
  reflexivity.
Defined.

(** X4: [block_received] raises [NameError] (the [else] branch names the
    module [logging], which is not imported) exactly when the piece has
    no block at the given offset -- in particular for a piece without
    blocks; otherwise it returns. *)
Theorem block_received_unknown_offset (o : Z) (d : bytes) (p : Piece.t) :
  (Piece.block_received o d p = Raise (NameError "logging")
   <-> Forall (fun b => Block.offset b <> o) (Piece.blocks p))
  /\ ((exists p', Piece.block_received o d p = Ok p')
      <-> Exists (fun b => Block.offset b = o) (Piece.blocks p)).
Proof.
  unfold Piece.block_received.
  destruct (filter (fun b => Block.at_offset o b = true) (Piece.blocks p))
    as [|b0 t] eqn:E.
  - apply filter_nil_Forall in E.
    assert (Forall (fun b => Block.offset b <> o) (Piece.blocks p)) as HF.
    { eapply Forall_impl; [exact E|]. intros b Hb.
      unfold Block.at_offset in Hb. by apply Z.eqb_neq. }
    split; [done|]. split; [by intros [? ?]|].
    intros HE. apply Exists_exists in HE as (b & Hin & Hb).
    rewrite Forall_forall in HF. by destruct (HF b Hin).
  - apply filter_first_split in E as (pre & post & Hb & _ & Hb0 & _).
    unfold Block.at_offset in Hb0. apply Z.eqb_eq in Hb0.
    split.
    + split; [done|]. rewrite Hb, Forall_app, Forall_cons.
      intros (_ & Hne & _). done.
    + split; [|eauto]. intros _. rewrite Hb.
      apply Exists_app. right. by left.
Qed.

(** X5: [Piece.data] raises [TypeError] exactly when some block of the
    piece holds no data yet ([b.data is None], as for every block that
    was never received); otherwise it returns the blocks' bytes joined in
    offset order. *)
Theorem piece_data_needs_every_block (p : Piece.t) :
  (Exists (fun b => Block.data b = None) (Piece.blocks p)
   /\ Piece.data p = Raise TypeError)
  \/ (Forall (fun b => is_Some (Block.data b)) (Piece.blocks p)
      /\ exists out ds,
          offset_order (Piece.blocks p) out
          /\ map Block.data out = map Some ds
          /\ Piece.data p = Ok (concat ds)).
Proof.
  unfold Piece.data.
  destruct (join_result (map Block.data (Piece.sorted_blocks p)))
    as [[Hin ->]|(l & Hl & ->)].
  - left. split; [|done].
    apply list_elem_of_fmap in Hin as (b & Hb & Hin).
    rewrite sorted_blocks_perm in Hin.
    apply Exists_exists. eauto.
  - right. split.
    + rewrite <- sorted_blocks_perm. apply Forall_forall. intros b Hb.
      assert (Block.data b ∈ map Block.data (Piece.sorted_blocks p)) as Hd
        by (apply list_elem_of_fmap; eauto).
      rewrite Hl in Hd. apply list_elem_of_fmap in Hd as (x & -> & _). eauto.
    + exists (Piece.sorted_blocks p), l.
      split; [apply sorted_blocks_offset_order|done].
Qed.

(** X6: [Piece.reset] sets every block to Missing and keeps everything
    else, the received bytes included: the data are not cleared, so
    [Piece.data] and the hash check give after a reset what they gave
    before. *)
Theorem piece_reset_keeps_data (p : Piece.t) :
  Forall (fun b => Block.status b = Missing) (Piece.blocks (Piece.reset p))
  /\ map Block.data (Piece.blocks (Piece.reset p))
     = map Block.data (Piece.blocks p)
  /\ map block_key (Piece.blocks (Piece.reset p))
     = map block_key (Piece.blocks p)
  /\ map Block.length (Piece.blocks (Piece.reset p))
     = map Block.length (Piece.blocks p)
  /\ Piece.data (Piece.reset p) = Piece.data p
  /\ Piece.is_hash_matching (Piece.reset p) = Piece.is_hash_matching p.
Proof.
  assert (Hd : Piece.data (Piece.reset p) = Piece.data p).
  { unfold Piece.data, Piece.reset. rewrite sorted_blocks_map by done.
    by rewrite map_map. }
  split.
  { simpl. apply Forall_forall. intros b Hb.
    by apply list_elem_of_fmap in Hb as (x & -> & _). }
  split; [simpl; by rewrite map_map|].
  split; [simpl; by rewrite map_map|].
  split; [simpl; by rewrite map_map|].
  split; [exact Hd|].
  unfold Piece.is_hash_matching. by rewrite Hd.
Qed.

(** X7: after a reset a piece that has blocks is not complete, and its
    next request is its first block again. *)
Theorem piece_reset_restarts (p : Piece.t) (b0 : Block.t) (rest : list Block.t) :
  Piece.blocks p = b0 :: rest ->
  Piece.is_complete (Piece.reset p) = false
  /\ Piece.next_request (Piece.reset p)
     = (Some (Block.set_status Pending b0),
        Piece.with_blocks
          (Block.set_status Pending b0 :: map (Block.set_status Missing) rest)
          p).
Proof.
  intros Hb. split.
  - apply not_true_iff_false. rewrite is_complete_Forall.
    simpl. rewrite Hb. simpl. inversion 1 as [|x l Hx Hl]. discriminate.
  - unfold Piece.reset, Piece.with_blocks. rewrite Hb. simpl.
    exact (next_request_found (Piece.index p) (Piece.hash p) []
             (Block.set_status Missing b0)
             (map (Block.set_status Missing) rest)
             (List.Forall_nil _) eq_refl).
Qed.

Lemma piece_reset_restarts_witness :
  Piece.is_complete
    (Piece.reset (demo_piece0 Retrieved (Some ab) Retrieved (Some c))) = false
  /\ Piece.next_request
       (Piece.reset (demo_piece0 Retrieved (Some ab) Retrieved (Some c)))
     = (Some (Block.set_status Pending (Block.mk 0 0 16384 Retrieved (Some ab))),
        Piece.with_blocks
          (Block.set_status Pending (Block.mk 0 0 16384 Retrieved (Some ab))
             :: map (Block.set_status Missing)
                    [Block.mk 0 16384 16384 Retrieved (Some c)])
          (demo_piece0 Retrieved (Some ab) Retrieved (Some c))).
Proof.
  apply (piece_reset_restarts
           (demo_piece0 Retrieved (Some ab) Retrieved (Some c))).
  reflexivity.
Defined.

(** ** The hash check and the stored hash *)

Section HashLength.

Lemma be_bytes_length w x : length (SHA1.be_bytes w x) = w.
Proof. unfold SHA1.be_bytes. by rewrite length_map, length_seq. Qed.

Lemma digest_length msg : length (SHA1.digest msg) = 20%nat.
Proof.
  unfold SHA1.digest.
  destruct (fold_left SHA1.compress _ SHA1.init) as [[[[h0 h1] h2] h3] h4].
  by rewrite !length_app, !be_bytes_length.
Qed.

Lemma hexdigest_length msg : length (SHA1.hexdigest msg) = 40%nat.
Proof.
  unfold SHA1.hexdigest.
  pose proof (digest_length msg) as H.
  revert H. generalize (SHA1.digest msg) as l. intros l.
  assert (forall n, length l = n ->
            length (flat_map
                      (fun b => [SHA1.hex_digit (byte_to_Z b / 16);
                                 SHA1.hex_digit (byte_to_Z b mod 16)]) l)
            = (2 * n)%nat) as Hgen.
  { induction l as [|b r IH]; intros n Hn; simpl in *; [by subst|].
    destruct n as [|n]; [done|]. rewrite (IH n) by lia. lia. }
  intros H. by rewrite (Hgen 20%nat).
Qed.

End HashLength.

(** X8: [is_hash_matching] can only return true for a piece whose stored
    hash is 40 bytes long, the length of a hexadecimal SHA-1 rendering: a
    piece stored with a raw 20-byte digest, or with any other length,
    never passes the check. *)
Theorem is_hash_matching_needs_40_bytes (p : Piece.t) :
  Piece.is_hash_matching p = Ok true -> length (Piece.hash p) = 40%nat.
Proof.
  unfold Piece.is_hash_matching.
  destruct (Piece.data p) as [d|e]; simpl; [|done].
  intros [= H]. apply bool_decide_eq_true in H. rewrite H.
  apply hexdigest_length.
Qed.

Lemma is_hash_matching_needs_40_bytes_witness :
  Piece.is_hash_matching hex_digest_piece = Ok true
  /\ length (Piece.hash hex_digest_piece) = 40%nat.
Proof.
  assert (H : Piece.is_hash_matching hex_digest_piece = Ok true)
    by (vm_compute; reflexivity).
  split; [exact H|].
  exact (is_hash_matching_needs_40_bytes hex_digest_piece H).
Defined.

(** ** make_pieces, when it returns *)

Section MakePiecesShape.

Import DownloadManager.

Lemma piece_blocks_ok_inv info i blocks :
  piece_blocks info (len (Info.pieces info))
               (ceil_div (Info.piece_length info) REQUEST_SIZE) i = Ok blocks ->
  blocks = full_blocks i (blocks_count info i)
  /\ ((i <? len (Info.pieces info) - 1) = false ->
      Info.piece_length info <> 0
      /\ (Info.length info mod Info.piece_length info) mod REQUEST_SIZE = 0).
Proof.
  unfold piece_blocks, blocks_count.
  destruct (i <? len (Info.pieces info) - 1); [by intros [= <-]|].
  destruct (Info.piece_length info =? 0) eqn:Hpl; [done|].
  apply Z.eqb_neq in Hpl. cbv zeta.
  destruct (_ >? 0) eqn:Htail.
  - by destruct (full_blocks _ _).
  - intros [= <-]. split; [done|]. intros _. split; [done|].
    pose proof (Z.mod_pos_bound
                  (Info.length info mod Info.piece_length info) REQUEST_SIZE
                  eq_refl) as Hb.
    rewrite Z.gtb_ltb in Htail. apply Z.ltb_ge in Htail. lia.
Qed.


Lemma make_pieces_loop_inv info hashes :
  forall index pieces ps,
    make_pieces_loop info (len (Info.pieces info))
      (ceil_div (Info.piece_length info) REQUEST_SIZE) index hashes pieces
    = Ok ps ->
    exists ps',
      ps = pieces ++ ps'
      /\ length ps' = length hashes
      /\ forall k h,
          hashes !! k = Some h ->
          (ps' !! k
           = Some (Piece.mk (index + Z.of_nat k)
                            (full_blocks (index + Z.of_nat k)
                                         (blocks_count info (index + Z.of_nat k)))
                            h))
          /\ ((index + Z.of_nat k <? len (Info.pieces info) - 1) = false ->
              Info.piece_length info <> 0
              /\ (Info.length info mod Info.piece_length info)
                   mod REQUEST_SIZE = 0).
Proof.
  induction hashes as [|h0 rest IH]; intros index pieces ps; simpl.
  - intros [= <-]. exists []. split; [by rewrite app_nil_r|]. split; [done|].
    intros k h Hk. done.
  - destruct (piece_blocks _ _ _ index) as [blocks|e] eqn:E; [|done]. simpl.
    apply piece_blocks_ok_inv in E as [-> Hlast].
    intros H. apply IH in H as (ps' & -> & Hlen & Hk).
    exists (Piece.mk index (full_blocks index (blocks_count info index)) h0 :: ps').
    split; [by rewrite <- app_assoc|]. split; [simpl; by rewrite Hlen|].
    intros [|k] h Hh; simpl in Hh.
    + injection Hh as <-. simpl. rewrite Z.add_0_r. done.
    + change ((Piece.mk index (full_blocks index (blocks_count info index)) h0
                 :: ps') !! S k) with (ps' !! k).
      replace (index + Z.of_nat (S k)) with (index + 1 + Z.of_nat k) by lia.
      by apply Hk.
Qed.


Lemma make_pieces_lookup info ps :
  make_pieces info = Ok ps ->
  length ps = length (Info.pieces info)
  /\ forall k h,
      Info.pieces info !! k = Some h ->
      (ps !! k
       = Some (Piece.mk (Z.of_nat k)
                        (full_blocks (Z.of_nat k) (blocks_count info (Z.of_nat k)))
                        h))
      /\ ((Z.of_nat k <? len (Info.pieces info) - 1) = false ->
          Info.piece_length info <> 0
          /\ (Info.length info mod Info.piece_length info) mod REQUEST_SIZE = 0).
Proof.
  unfold make_pieces. intros H.
  apply make_pieces_loop_inv in H as (ps' & -> & Hlen & Hk).
  split; [done|]. intros k h Hh. apply (Hk k h Hh).
Qed.

Lemma make_pieces_indices info ps :
  make_pieces info = Ok ps ->
  map Piece.index ps = range (len (Info.pieces info)).
Proof.
  intros H. apply make_pieces_lookup in H as [Hlen Hk].
  unfold range, len. rewrite Nat2Z.id.
  apply list_eq. intros k.
  rewrite !list_lookup_fmap.
  destruct (Info.pieces info !! k) as [h|] eqn:Hh.
  - destruct (Hk k h Hh) as [-> _]. simpl.
    apply lookup_lt_Some in Hh.
    by rewrite lookup_seq_lt.
  - apply lookup_ge_None in Hh.
    rewrite (proj2 (lookup_ge_None ps k)) by lia.
    by rewrite lookup_seq_ge.
Qed.

End MakePiecesShape.


(** X10: when [make_pieces] returns, it returns one piece per digest of
    the metainfo, in order: piece [k] has index [k], the [k]-th digest as
    its hash, and [ceil(piece_length / 16384)] blocks (the last piece
    [ceil((length % piece_length) / 16384)]), block [j] being Missing,
    without data, of piece [k], at offset [16384 * j] and of length 16384. *)
Theorem make_pieces_shape (info : Info.t) (ps : list Piece.t) :
  DownloadManager.make_pieces info = Ok ps ->
  length ps = length (Info.pieces info)
  /\ forall k h,
      Info.pieces info !! k = Some h ->
      ps !! k
      = Some (Piece.mk (Z.of_nat k)
                (map (fun j => Block.mk (Z.of_nat k) (j * 16384) 16384 Missing None)
                     (range (blocks_count info (Z.of_nat k))))
                h).
Proof.
  intros H. apply make_pieces_lookup in H as [Hlen Hk].
  split; [done|]. intros k h Hh. by destruct (Hk k h Hh) as [-> _].
Qed.

Lemma make_pieces_shape_witness :
  DownloadManager.make_pieces demo_info
  = Ok [demo_piece0 Missing None Missing None; demo_piece1]
  /\ (length [demo_piece0 Missing None Missing None; demo_piece1]
      = length (Info.pieces demo_info)
      /\ forall k h,
          Info.pieces demo_info !! k = Some h ->
          [demo_piece0 Missing None Missing None; demo_piece1] !! k
          = Some (Piece.mk (Z.of_nat k)
                    (map (fun j => Block.mk (Z.of_nat k) (j * 16384) 16384
                                            Missing None)
                         (range (blocks_count demo_info (Z.of_nat k))))
                    h)).
Proof.
  assert (H : DownloadManager.make_pieces demo_info
              = Ok [demo_piece0 Missing None Missing None; demo_piece1])
    by (vm_compute; reflexivity).
  split; [exact H|].
  exact (make_pieces_shape demo_info _ H).
Defined.

(** X11: a manager that [__init__] returns holds every piece, in index
    order, in [missing_pieces]; [ongoing_pieces], [have_pieces],
    [pending_blocks] and [peers] are empty, the file is as it was found,
    and the partition invariant holds. *)
Theorem init_all_pieces_missing
    (info : Info.t) (existing : bytes) (m : DownloadManager.t) :
  DownloadManager.init info existing = Ok m ->
  DownloadManager.make_pieces info = Ok (DownloadManager.missing_pieces m)
  /\ map Piece.index (DownloadManager.missing_pieces m)
     = range (DownloadManager.total_pieces m)
  /\ DownloadManager.ongoing_pieces m = []
  /\ DownloadManager.have_pieces m = []
  /\ DownloadManager.pending_blocks m = []
  /\ DownloadManager.peers m = ∅
  /\ DownloadManager.file m = existing
  /\ partition_inv m.
Proof.
  unfold DownloadManager.init.
  destruct (DownloadManager.make_pieces info) as [ps|e] eqn:E; [|done].
  simpl. intros [= <-]. simpl.
  pose proof (make_pieces_indices info ps E) as Hi.
  pose proof (make_pieces_lookup info ps E) as [Hlen _].
  repeat (split; [done|]).
  unfold partition_inv, all_pieces. simpl.
  split; [unfold len; rewrite Hlen; simpl; lia|].
  split; [by rewrite !app_nil_r, Hi|constructor].
Qed.

Lemma init_all_pieces_missing_witness :
  DownloadManager.init demo_info [] = Ok demo_fresh
  /\ (DownloadManager.make_pieces demo_info
      = Ok (DownloadManager.missing_pieces demo_fresh)
      /\ map Piece.index (DownloadManager.missing_pieces demo_fresh)
         = range (DownloadManager.total_pieces demo_fresh)
      /\ DownloadManager.ongoing_pieces demo_fresh = []
      /\ DownloadManager.have_pieces demo_fresh = []
      /\ DownloadManager.pending_blocks demo_fresh = []
      /\ DownloadManager.peers demo_fresh = ∅
      /\ DownloadManager.file demo_fresh = []
      /\ partition_inv demo_fresh).
Proof.
  assert (H : DownloadManager.init demo_info [] = Ok demo_fresh)
    by (vm_compute; reflexivity).
  split; [exact H|].
  exact (init_all_pieces_missing demo_info [] demo_fresh H).
Defined.

(** ** The manager over sequences of calls *)

Section ManagerCalls.

Import DownloadManager.

Implicit Types (m : DownloadManager.t).

Lemma update_ongoing_pieces_fixed i o d m :
  fixed_part (snd (update_ongoing_pieces i o d m)) = fixed_part m.
Proof.
  unfold update_ongoing_pieces.
  destruct (filter _ (ongoing_pieces m)) as [|piece ?]; [done|].
  destruct (Piece.block_received o d piece) as [piece'|e]; [|done].
  destruct (Piece.is_complete piece'); [|done].
  destruct (Piece.is_hash_matching piece') as [[|]|e]; try done.
  unfold _write.
  destruct (_ <? 0); [done|].
  destruct (Piece.data piece'); done.
Qed.

Lemma on_block_complete_fixed peer_id i o d m :
  fixed_part (snd (on_block_complete peer_id i o d m)) = fixed_part m.
Proof.
  unfold on_block_complete.
  pose proof (update_ongoing_pieces_fixed i o d
                (remove_from_pending_pieces i o m)) as H.
  destruct (update_ongoing_pieces i o d _) as [[[?|]|e] m2]; exact H.
Qed.

Lemma _next_ongoing_frame now peer_id m :
  fixed_part (snd (_next_ongoing now peer_id m)) = fixed_part m
  /\ peers (snd (_next_ongoing now peer_id m)) = peers m
  /\ file (snd (_next_ongoing now peer_id m)) = file m
  /\ max_pending_time (snd (_next_ongoing now peer_id m)) = max_pending_time m.
Proof.
  unfold _next_ongoing.
  destruct (peer_bitfield peer_id m); [|done].
  by destruct (ongoing_scan _ _) as [[[? ?]|]|e].
Qed.

Lemma _next_missing_frame peer_id m :
  fixed_part (snd (_next_missing peer_id m)) = fixed_part m
  /\ peers (snd (_next_missing peer_id m)) = peers m
  /\ file (snd (_next_missing peer_id m)) = file m
  /\ max_pending_time (snd (_next_missing peer_id m)) = max_pending_time m.
Proof.
  unfold _next_missing.
  destruct (peer_bitfield peer_id m); [|done].
  destruct (missing_scan _ _) as [[[p ?]|]|e]; try done.
  by destruct (Piece.next_request p).
Qed.

Lemma next_request_frame now peer_id m :
  fixed_part (snd (next_request now peer_id m)) = fixed_part m
  /\ peers (snd (next_request now peer_id m)) = peers m
  /\ file (snd (next_request now peer_id m)) = file m
  /\ max_pending_time (snd (next_request now peer_id m)) = max_pending_time m.
Proof.
  unfold next_request.
  destruct (peers m !! peer_id); [|done].
  destruct (_expired_request now peer_id m) as [[?|]|e]; try done.
  pose proof (_next_ongoing_frame now peer_id m) as H1.
  destruct (_next_ongoing now peer_id m) as [[[?|]|e] m1]; try done.
  simpl in H1. destruct H1 as (F1 & P1 & W1 & T1).
  pose proof (_next_missing_frame peer_id m1) as (F2 & P2 & W2 & T2).
  rewrite F2, P2, W2, T2. done.
Qed.

Lemma perform_fixed c m : fixed_part (perform c m) = fixed_part m.
Proof.
  destruct c; simpl; [done| |].
  - apply next_request_frame.
  - apply on_block_complete_fixed.
Qed.

Lemma run_fixed cs m : fixed_part (run cs m) = fixed_part m.
Proof.
  revert m. induction cs as [|c cs IH]; intros m; [done|].
  unfold run. simpl. fold (run cs (perform c m)).
  by rewrite IH, perform_fixed.
Qed.

End ManagerCalls.

(** X12: no sequence of [add_peer], [next_request] and
    [on_block_complete] calls ever changes [have_pieces]: [complete] and
    [bytes_downloaded] stay what they were.  For a manager fresh from
    [__init__], [bytes_downloaded] is 0 for ever and [complete] is true
    only if the metainfo lists no piece -- the download of a torrent with
    pieces is never reported complete. *)
Theorem download_never_completes :
  (forall cs m,
      DownloadManager.have_pieces (run cs m) = DownloadManager.have_pieces m
      /\ DownloadManager.complete (run cs m) = DownloadManager.complete m
      /\ DownloadManager.bytes_downloaded (run cs m)
         = DownloadManager.bytes_downloaded m)
  /\ (forall info existing m cs,
        DownloadManager.init info existing = Ok m ->
        DownloadManager.bytes_downloaded (run cs m) = 0
        /\ (DownloadManager.complete (run cs m) = true
            <-> Info.pieces info = [])).
Proof.
  assert (Hrun : forall cs m,
             DownloadManager.have_pieces (run cs m) = DownloadManager.have_pieces m
             /\ DownloadManager.complete (run cs m) = DownloadManager.complete m
             /\ DownloadManager.bytes_downloaded (run cs m)
                = DownloadManager.bytes_downloaded m).
  { intros cs m. pose proof (run_fixed cs m) as H.
    unfold fixed_part in H. injection H as Ht Hn Hh.
    unfold DownloadManager.complete, DownloadManager.bytes_downloaded.
    by rewrite Ht, Hn, Hh. }
  split; [exact Hrun|].
  intros info existing m cs Hinit.
  destruct (Hrun cs m) as (_ & Hc & Hb). rewrite Hc, Hb.
  unfold DownloadManager.init in Hinit.
  destruct (DownloadManager.make_pieces info); [|done].
  simpl in Hinit. injection Hinit as <-.
  unfold DownloadManager.complete, DownloadManager.bytes_downloaded.
  cbn [DownloadManager.have_pieces DownloadManager.total_pieces
       DownloadManager.torrent].
  split; [reflexivity|].
  destruct (Info.pieces info) as [|h r]; [done|].
  split; [|done]. intros H. apply Z.eqb_eq in H.
  unfold len in H. simpl length in H. lia.
Qed.

Section ManagerEffects.

Import DownloadManager.

Implicit Types (m : DownloadManager.t) (bf : bitfield).


Lemma update_first_same_head {A} (P : A -> bool) (l : list A) x t :
  filter (fun y => P y = true) l = x :: t ->
  update_first P (fun _ => x) l = l.
Proof.
  intros Hf. apply filter_first_split in Hf as (pre & post & -> & Hpre & Hx & _).
  by rewrite update_first_split.
Qed.

Lemma ongoing_scan_found bf ps b ps' :
  ongoing_scan bf ps = Ok (Some (b, ps')) ->
  exists p, p ∈ ps' /\ getitem bf (Piece.index p) = Ok true
            /\ b ∈ Piece.blocks p /\ Block.status b = Pending.
Proof.
  revert b ps'. induction ps as [|x r IH]; intros b ps'; simpl; [done|].
  assert (Hcont :
    (let? r0 := ongoing_scan bf r in
     Ok (match r0 with
         | Some (b0, rest') => Some (b0, x :: rest')
         | None => None
         end)) = Ok (Some (b, ps')) ->
    exists p, p ∈ ps' /\ getitem bf (Piece.index p) = Ok true
              /\ b ∈ Piece.blocks p /\ Block.status b = Pending).
  { destruct (ongoing_scan bf r) as [[[b0 rest']|]|e]; simpl; try done.
    intros [= <- <-]. destruct (IH b0 rest' eq_refl) as (p & Hp & Hrest).
    exists p. split; [by right|done]. }
  destruct (getitem bf (Piece.index x)) as [[|]|e] eqn:Hbit; simpl; try done.
  destruct (Piece.next_request x) as [[blk|] x'] eqn:E; [|done].
  intros [= <- <-]. exists x'. split; [left|].
  unfold Piece.next_request in E.
  destruct (filter _ (Piece.blocks x)) as [|b0 t] eqn:Hf; [done|].
  injection E as <- <-.
  apply filter_first_split in Hf as (pre & post & Hb & Hpre & Hb0 & _).
  simpl. split; [done|]. split; [|done].
  rewrite Hb, update_first_split by done.
  apply elem_of_app. right. left.
Qed.

Lemma missing_scan_found bf ps p rest :
  missing_scan bf ps = Ok (Some (p, rest)) ->
  getitem bf (Piece.index p) = Ok true.
Proof.
  revert p rest. induction ps as [|x r IH]; intros p rest; simpl; [done|].
  destruct (getitem bf (Piece.index x)) as [[|]|e] eqn:Hbit; simpl; try done.
  - by intros [= <- <-].
  - destruct (missing_scan bf r) as [[[q rest']|]|e]; simpl; try done.
    intros [= <- <-]. by apply (IH q rest').
Qed.

Lemma piece_next_request_some p b p' :
  Piece.next_request p = (Some b, p') ->
  Piece.index p' = Piece.index p
  /\ b ∈ Piece.blocks p' /\ Block.status b = Pending.
Proof.
  unfold Piece.next_request.
  destruct (filter _ (Piece.blocks p)) as [|b0 t] eqn:Hf; [done|].
  intros [= <- <-].
  apply filter_first_split in Hf as (pre & post & Hb & Hpre & Hb0 & _).
  simpl. split; [done|]. split; [|done].
  rewrite Hb, update_first_split by done.
  apply elem_of_app. right. left.
Qed.


End ManagerEffects.


(** X14: a block for a piece that is not in [ongoing_pieces] (unknown,
    still missing, or already written) is dropped: [on_block_complete]
    returns normally and its only effect is to remove the first pending
    request for that piece index and offset, if there is one. *)
Theorem on_block_complete_drops_block_of_other_piece
    (peer_id : string) (i o : Z) (d : bytes) (m : DownloadManager.t) :
  Forall (fun p => Piece.index p <> i) (DownloadManager.ongoing_pieces m) ->
  DownloadManager.on_block_complete peer_id i o d m
  = (Ok tt, DownloadManager.remove_from_pending_pieces i o m).
Proof.
  intros H. unfold DownloadManager.on_block_complete,
              DownloadManager.update_ongoing_pieces. simpl.
  assert (filter (fun p => DownloadManager.has_index i p = true)
                 (DownloadManager.ongoing_pieces m) = []) as ->; [|done].
  apply filter_nil_Forall. eapply Forall_impl; [exact H|].
  intros p Hp. unfold DownloadManager.has_index. by apply Z.eqb_neq.
Qed.

Lemma on_block_complete_drops_block_of_other_piece_witness :
  Forall (fun p => Piece.index p <> 1)
         (DownloadManager.ongoing_pieces demo_requested_second)
  /\ DownloadManager.on_block_complete "peer" 1 0 abc demo_requested_second
     = (Ok tt, DownloadManager.remove_from_pending_pieces 1 0
                 demo_requested_second).
Proof.
  assert (H : Forall (fun p => Piece.index p <> 1)
                     (DownloadManager.ongoing_pieces demo_requested_second))
    by (repeat constructor; simpl; lia).
  split; [exact H|].
  exact (on_block_complete_drops_block_of_other_piece
           "peer" 1 0 abc demo_requested_second H).
Defined.

(** X15: a block that [next_request] returns is a Pending block of a
    piece that is in [ongoing_pieces] afterwards and whose index is set
    in the asking peer's bitfield: a peer is never asked for a block of a
    piece it did not advertise. *)
Theorem next_request_block_is_of_peers_piece
    (now : Z) (peer_id : string) (m m' : DownloadManager.t) (b : Block.t) :
  DownloadManager.next_request now peer_id m = (Ok (Some b), m') ->
  exists bf p,
    DownloadManager.peers m !! peer_id = Some bf
    /\ p ∈ DownloadManager.ongoing_pieces m'
    /\ getitem bf (Piece.index p) = Ok true
    /\ b ∈ Piece.blocks p
    /\ Block.status b = Pending.
Proof.
  unfold DownloadManager.next_request.
  destruct (DownloadManager.peers m !! peer_id) as [bf|] eqn:Hp; [|done].
  destruct (_expired_request_no_block now peer_id m) as [->|[e ->]]; [|done].
  unfold DownloadManager._next_ongoing, DownloadManager.peer_bitfield.
  rewrite Hp.
  destruct (DownloadManager.ongoing_scan bf (DownloadManager.ongoing_pieces m))
    as [[[blk ps']|]|e] eqn:E; [| |done].
  - intros [= <- <-]. apply ongoing_scan_found in E as (p & Hin & Hbit & Hb & Hs).
    exists bf, p. done.
  - unfold DownloadManager._next_missing, DownloadManager.peer_bitfield.
    rewrite Hp.
    destruct (DownloadManager.missing_scan bf (DownloadManager.missing_pieces m))
      as [[[piece rest]|]|e] eqn:Em; [| done | done].
    apply missing_scan_found in Em.
    destruct (Piece.next_request piece) as [blk piece'] eqn:En.
    intros [= -> <-].
    apply piece_next_request_some in En as (Hi & Hb & Hs).
    exists bf, piece'. split; [done|]. split.
    + simpl. apply elem_of_app. right. left.
    + by rewrite Hi.
Qed.

Lemma next_request_block_is_of_peers_piece_witness :
  DownloadManager.next_request 1 "peer" demo_requested_first
  = (Ok (Some (Block.mk 0 16384 16384 Pending None)), demo_requested_second)
  /\ exists bf p,
      DownloadManager.peers demo_requested_first !! "peer" = Some bf
      /\ p ∈ DownloadManager.ongoing_pieces demo_requested_second
      /\ getitem bf (Piece.index p) = Ok true
      /\ Block.mk 0 16384 16384 Pending None ∈ Piece.blocks p
      /\ Block.status (Block.mk 0 16384 16384 Pending None) = Pending.
Proof.
  assert (H : DownloadManager.next_request 1 "peer" demo_requested_first
              = (Ok (Some (Block.mk 0 16384 16384 Pending None)),
                 demo_requested_second))
    by (vm_compute; reflexivity).
  split; [exact H|].
  exact (next_request_block_is_of_peers_piece 1 "peer" demo_requested_first
           demo_requested_second _ H).
Defined.

(** X16: [next_request] that raises leaves the manager exactly as it
    was.  In every case it leaves [peers], the file and [have_pieces]
    alone, and [pending_blocks] either stays as it is or gains, at its
    end, one request for the block returned, stamped with the clock
    reading. *)
Theorem next_request_effects (now : Z) (peer_id : string) (m : DownloadManager.t) :
  (forall e, fst (DownloadManager.next_request now peer_id m) = Raise e ->
             snd (DownloadManager.next_request now peer_id m) = m)
  /\ (DownloadManager.pending_blocks
        (snd (DownloadManager.next_request now peer_id m))
      = DownloadManager.pending_blocks m
      \/ exists b,
          fst (DownloadManager.next_request now peer_id m) = Ok (Some b)
          /\ DownloadManager.pending_blocks
               (snd (DownloadManager.next_request now peer_id m))
             = DownloadManager.pending_blocks m ++ [PendingRequest.mk b now])
  /\ DownloadManager.peers (snd (DownloadManager.next_request now peer_id m))
     = DownloadManager.peers m
  /\ DownloadManager.file (snd (DownloadManager.next_request now peer_id m))
     = DownloadManager.file m
  /\ DownloadManager.have_pieces
       (snd (DownloadManager.next_request now peer_id m))
     = DownloadManager.have_pieces m.
Proof.
  pose proof (next_request_frame now peer_id m) as (Hf & Hp & Hw & _).
  unfold fixed_part in Hf. injection Hf as _ _ Hh.
  split; [|split; [|done]].
  - unfold DownloadManager.next_request.
    destruct (DownloadManager.peers m !! peer_id) as [bf|] eqn:Hpeer; [|done].
    destruct (DownloadManager._expired_request now peer_id m) as [[?|]|?];
      try done.
    unfold DownloadManager._next_ongoing, DownloadManager.peer_bitfield.
    rewrite Hpeer.
    destruct (DownloadManager.ongoing_scan bf _) as [[[blk ps']|]|?]; try done.
    unfold DownloadManager._next_missing, DownloadManager.peer_bitfield.
    rewrite Hpeer.
    destruct (DownloadManager.missing_scan bf _) as [[[piece rest]|]|?];
      try done.
    destruct (Piece.next_request piece) as [[?|] ?]; done.
  - unfold DownloadManager.next_request.
    destruct (DownloadManager.peers m !! peer_id) as [bf|] eqn:Hpeer;
      [|by left].
    destruct (DownloadManager._expired_request now peer_id m) as [[?|]|?];
      try (by left).
    unfold DownloadManager._next_ongoing, DownloadManager.peer_bitfield.
    rewrite Hpeer.
    destruct (DownloadManager.ongoing_scan bf _) as [[[blk ps']|]|?];
      [right; by exists blk| |by left].
    left. apply _next_missing_pending.
Qed.



(** X18: delivering a block twice is harmless while its piece stays
    incomplete: the first [on_block_complete] stores the block and returns
    normally, and a second one with the same arguments changes nothing
    but [pending_blocks], from which it removes one more request for that
    block if there is one. *)
Theorem on_block_complete_twice
    (peer_id : string) (i o : Z) (d : bytes) (m : DownloadManager.t)
    (piece piece' : Piece.t) (others : list Piece.t) :
  filter (fun p => DownloadManager.has_index i p = true)
         (DownloadManager.ongoing_pieces m) = piece :: others ->
  Piece.block_received o d piece = Ok piece' ->
  Piece.is_complete piece' = false ->
  let m1 := snd (DownloadManager.on_block_complete peer_id i o d m) in
  fst (DownloadManager.on_block_complete peer_id i o d m) = Ok tt
  /\ DownloadManager.on_block_complete peer_id i o d m1
     = (Ok tt, DownloadManager.remove_from_pending_pieces i o m1).
Proof.
  intros Hf Hrecv Hc.
  assert (Hfirst : DownloadManager.on_block_complete peer_id i o d m
            = (Ok tt,
               DownloadManager.set_ongoing_pieces
                 (update_first (DownloadManager.has_index i) (fun _ => piece')
                               (DownloadManager.ongoing_pieces m))
                 (DownloadManager.remove_from_pending_pieces i o m))).
  { unfold DownloadManager.on_block_complete,
      DownloadManager.update_ongoing_pieces. simpl.
    by rewrite Hf, Hrecv, Hc. }
  rewrite Hfirst. simpl. split; [done|].
  assert (Hidx : DownloadManager.has_index i piece' = true).
  { pose proof (block_received_shape _ _ _ _ Hrecv) as Hs.
    apply filter_head_holds in Hf. unfold DownloadManager.has_index in *.
    injection Hs as Hi _. by rewrite Hi. }
  pose proof (update_first_const_filter (DownloadManager.has_index i) piece'
                (DownloadManager.ongoing_pieces m) piece others Hf Hidx) as Hf'.
  unfold DownloadManager.on_block_complete,
    DownloadManager.update_ongoing_pieces. simpl.
  rewrite Hf'.
  rewrite (block_received_again o d d piece piece' Hrecv), Hrecv.
  rewrite Hc. simpl.
  rewrite (update_first_same_head _ _ piece' others Hf').
  done.
Qed.

Lemma on_block_complete_twice_witness :
  let m1 := snd (DownloadManager.on_block_complete "peer" 0 0 ab
                   demo_requested_first) in
  fst (DownloadManager.on_block_complete "peer" 0 0 ab demo_requested_first)
  = Ok tt
  /\ DownloadManager.on_block_complete "peer" 0 0 ab m1
     = (Ok tt, DownloadManager.remove_from_pending_pieces 0 0 m1).
Proof.
  apply (on_block_complete_twice "peer" 0 0 ab demo_requested_first
           (demo_piece0 Pending None Missing None)
           (demo_piece0 Retrieved (Some ab) Missing None) []);
    reflexivity.
Defined.

(** ** The framer in general *)

Section FramerGeneral.

Import PeerStreamIterator.

Lemma byte_to_Z_nonneg b : 0 <= byte_to_Z b.
Proof. unfold byte_to_Z. lia. Qed.

Lemma be_word_nonneg bs : 0 <= SHA1.be_word bs.
Proof.
  induction bs as [|b r IH]; simpl; [lia|].
  pose proof (byte_to_Z_nonneg b).
  assert (0 <= 2 ^ (8 * len r)) by (apply Z.pow_nonneg; lia).
  nia.
Qed.

Lemma parse_short buf : len buf <= 4 -> parse buf = (Ok None, buf).
Proof.
  intros H. unfold parse.
  destruct (len buf >? 4) eqn:E; [|done].
  rewrite Z.gtb_ltb in E. apply Z.ltb_lt in E. lia.
Qed.

Lemma len_cons5 {A} (a b c d e : A) rest : 4 < len (a :: b :: c :: d :: e :: rest).
Proof. unfold len. simpl length. lia. Qed.

Lemma parse_keep_alive b rest :
  parse (x00 :: x00 :: x00 :: x00 :: b :: rest)
  = (Ok (Some KeepAliveMessage), x00 :: x00 :: x00 :: x00 :: b :: rest).
Proof.
  unfold parse.
  pose proof (len_cons5 x00 x00 x00 x00 b rest) as H.
  apply Z.ltb_lt in H. rewrite <- Z.gtb_ltb in H. rewrite H.
  reflexivity.
Qed.

Lemma parse_bare_frame m rest :
  is_Some (state_id m) ->
  parse (bare_frame m ++ rest) = (Ok (Some m), rest).
Proof.
  intros [id Hid]. unfold bare_frame. rewrite Hid. simpl app.
  unfold parse.
  pose proof (len_cons5 x00 x00 x00 x01 id rest) as H.
  assert ((len (x00 :: x00 :: x00 :: x01 :: id :: rest) >=? 1) = true) as H1
    by (apply Z.geb_le; lia).
  apply Z.ltb_lt in H. rewrite <- Z.gtb_ltb in H. rewrite H.
  change (take 4 (x00 :: x00 :: x00 :: x01 :: id :: rest))
    with [x00; x00; x00; x01].
  change (Codec.unpack [x00; x00; x00; x01]) with 1.
  rewrite H1.
  destruct m; simpl in Hid; try discriminate; injection Hid as <-; reflexivity.
Qed.

Lemma bare_frame_nonempty m :
  is_Some (state_id m) -> exists b r, bare_frame m = b :: r.
Proof. intros [id Hid]. unfold bare_frame. rewrite Hid. eauto. Qed.

Lemma collect_S d fuel it :
  collect (S d) fuel it
  = match __anext__ fuel it with
    | (Yield m, it') => let '(ms, o) := collect d fuel it' in (m :: ms, o)
    | (o, _) => ([], o)
    end.
Proof. reflexivity. Qed.

Lemma anext_buffered m rest rd :
  is_Some (state_id m) ->
  __anext__ 1 (mk rd (bare_frame m ++ rest)) = (Yield m, mk rd rest).
Proof.
  intros Hm. pose proof (parse_bare_frame m rest Hm) as Hp.
  destruct (bare_frame_nonempty m Hm) as (b & r & Hb).
  rewrite Hb in *. simpl. simpl in Hp. by rewrite Hp.
Qed.

Lemma anext_read m rest rd :
  is_Some (state_id m) ->
  __anext__ 1 (mk ((bare_frame m ++ rest) :: rd) []) = (Yield m, mk rd rest).
Proof.
  intros Hm. pose proof (parse_bare_frame m rest Hm) as Hp.
  destruct (bare_frame_nonempty m Hm) as (b & r & Hb).
  rewrite Hb in *. simpl. simpl in Hp. by rewrite Hp.
Qed.

(** An iterator whose buffer holds the frames of [g] and whose reader
    will deliver the groups [gs], one group per read. *)
Lemma collect_groups gs :
  Forall (fun g => g <> [] /\ Forall (fun m => is_Some (state_id m)) g) gs ->
  forall g,
    Forall (fun m => is_Some (state_id m)) g ->
    collect (S (length (g ++ concat gs))) 1
            (mk (map bare_frames gs) (bare_frames g))
    = (g ++ concat gs, StopAsyncIteration).
Proof.
  induction 1 as [|g1 gs [Hne Hg1] Hgs IH].
  - intros g Hg. induction Hg as [|m g Hm Hg IHg]; [done|].
    cbn [app length map]. rewrite collect_S.
    change (bare_frames (m :: g)) with (bare_frame m ++ bare_frames g).
    rewrite anext_buffered by done.
    cbn [map] in IHg. by rewrite IHg.
  - intros g Hg. induction Hg as [|m g Hm Hg IHg].
    + destruct g1 as [|m1 g1']; [done|].
      apply Forall_cons in Hg1 as [Hm1 Hg1'].
      specialize (IH g1' Hg1').
      cbn [app concat length map]. rewrite collect_S.
      change (bare_frames []) with (@nil byte).
      change (bare_frames (m1 :: g1')) with (bare_frame m1 ++ bare_frames g1').
      rewrite anext_read by done.
      by rewrite IH.
    + cbn [app length]. rewrite collect_S.
      change (bare_frames (m :: g)) with (bare_frame m ++ bare_frames g).
      rewrite anext_buffered by done.
      by rewrite IHg.
Qed.

End FramerGeneral.

(** X19: a demand made while the buffer holds one to four bytes never
    returns and never reads from the stream: [parse] needs more than four
    bytes and [__anext__] only reads when the buffer is empty.  This
    includes a buffer that holds exactly one keep-alive frame. *)
Theorem anext_short_buffer_never_returns
    (fuel : nat) (it : PeerStreamIterator.t) :
  PeerStreamIterator.buffer it <> [] ->
  len (PeerStreamIterator.buffer it) <= 4 ->
  PeerStreamIterator.__anext__ fuel it = (PeerStreamIterator.Running, it).
Proof.
  intros Hne Hlen. apply anext_spins; [done|].
  by rewrite parse_short.
Qed.

Lemma anext_short_buffer_never_returns_witness :
  PeerStreamIterator.buffer
    (PeerStreamIterator.mk [[x00; x00; x00; x01; x02]] [x00; x00; x00; x00]) <> []
  /\ len (PeerStreamIterator.buffer
            (PeerStreamIterator.mk [[x00; x00; x00; x01; x02]]
                                   [x00; x00; x00; x00])) <= 4
  /\ PeerStreamIterator.__anext__ 1000
       (PeerStreamIterator.mk [[x00; x00; x00; x01; x02]] [x00; x00; x00; x00])
     = (PeerStreamIterator.Running,
        PeerStreamIterator.mk [[x00; x00; x00; x01; x02]] [x00; x00; x00; x00]).
Proof.
  split; [discriminate|]. split; [by vm_compute|].
  apply (anext_short_buffer_never_returns 1000
           (PeerStreamIterator.mk [[x00; x00; x00; x01; x02]]
                                  [x00; x00; x00; x00])).
  - discriminate.
  - by vm_compute.
Defined.

(** X20: a keep-alive frame followed by at least one more byte is
    returned by [parse] without being consumed: whatever follows it in
    the buffer and in the stream, every demand yields KeepAlive again and
    nothing else is ever yielded. *)
Theorem keep_alive_is_yielded_for_ever
    (reader : list bytes) (b : byte) (rest : bytes) (n fuel : nat) :
  PeerStreamIterator.collect n (S fuel)
    (PeerStreamIterator.mk reader (x00 :: x00 :: x00 :: x00 :: b :: rest))
  = (repeat KeepAliveMessage n, PeerStreamIterator.Running).
Proof.
  induction n as [|n IH]; [done|].
  rewrite collect_S.
  assert (PeerStreamIterator.__anext__ (S fuel)
            (PeerStreamIterator.mk reader (x00 :: x00 :: x00 :: x00 :: b :: rest))
          = (PeerStreamIterator.Yield KeepAliveMessage,
             PeerStreamIterator.mk reader (x00 :: x00 :: x00 :: x00 :: b :: rest)))
    as ->.
  { pose proof (parse_keep_alive b rest) as Hp.
    cbn [PeerStreamIterator.__anext__ PeerStreamIterator.buffer
         PeerStreamIterator.reader].
    by rewrite Hp. }
  by rewrite IH.
Qed.

(** X21: a frame with an id outside 0..8 is neither consumed nor
    skipped: [parse] returns none and leaves the buffer, so a demand made
    with such a frame at the head of the buffer never returns. *)
Theorem unknown_id_blocks_the_iterator
    (fuel : nat) (reader : list bytes) (p0 p1 p2 p3 id : byte) (rest : bytes) :
  let buf := p0 :: p1 :: p2 :: p3 :: id :: rest in
  Codec.unpack [p0; p1; p2; p3] <> 0 ->
  Codec.unpack [p0; p1; p2; p3] <= len buf ->
  PeerStreamIterator.signed_byte id < 0 \/ 8 < PeerStreamIterator.signed_byte id ->
  PeerStreamIterator.parse buf = (Ok None, buf)
  /\ PeerStreamIterator.__anext__ fuel (PeerStreamIterator.mk reader buf)
     = (PeerStreamIterator.Running, PeerStreamIterator.mk reader buf).
Proof.
  intros buf Hnz Hlen Hid.
  assert (Hp : PeerStreamIterator.parse buf = (Ok None, buf)).
  { unfold PeerStreamIterator.parse.
    pose proof (len_cons5 p0 p1 p2 p3 id rest) as H.
    apply Z.ltb_lt in H. rewrite <- Z.gtb_ltb in H. fold buf in H. rewrite H.
    change (take 4 buf) with [p0; p1; p2; p3].
    rewrite (proj2 (Z.eqb_neq _ _) Hnz).
    rewrite (proj2 (Z.geb_le _ _) Hlen).
    change (buf !! 4%nat) with (Some id). cbv zeta.
    repeat (rewrite (proj2 (Z.eqb_neq (PeerStreamIterator.signed_byte id) _))
              by lia).
    reflexivity. }
  split; [exact Hp|].
  apply anext_spins; [done|]. simpl. by rewrite Hp.
Qed.

Lemma unknown_id_blocks_the_iterator_witness :
  PeerStreamIterator.parse [x00; x00; x00; x01; x09; x00; x00; x00; x01; x02]
  = (Ok None, [x00; x00; x00; x01; x09; x00; x00; x00; x01; x02])
  /\ PeerStreamIterator.__anext__ 1000
       (PeerStreamIterator.mk [] [x00; x00; x00; x01; x09; x00; x00; x00; x01; x02])
     = (PeerStreamIterator.Running,
        PeerStreamIterator.mk [] [x00; x00; x00; x01; x09; x00; x00; x00; x01; x02]).
Proof.
  apply (unknown_id_blocks_the_iterator 1000 [] x00 x00 x00 x01 x09
           [x00; x00; x00; x01; x02]).
  - by vm_compute.
  - by vm_compute.
  - right. by vm_compute.
Defined.

(** X22: when every read delivers whole frames -- one or more Choke,
    Unchoke, Interested or NotInterested frames, back to back -- the
    iterator yields exactly those messages, in order, and then ends. *)
Theorem frame_aligned_reads_yield_every_message (groups : list (list Message)) :
  Forall (fun g => g <> [] /\ Forall (fun m => is_Some (state_id m)) g) groups ->
  PeerStreamIterator.collect (S (length (concat groups))) 1
    (chunked (map bare_frames groups))
  = (concat groups, PeerStreamIterator.StopAsyncIteration).
Proof.
  intros H. exact (collect_groups groups H [] (List.Forall_nil _)).
Qed.

Lemma frame_aligned_reads_yield_every_message_witness :
  PeerStreamIterator.collect 4 1
    (chunked [[x00; x00; x00; x01; x01; x00; x00; x00; x01; x02];
              [x00; x00; x00; x01; x00]])
  = ([UnchokeMessage; InterestedMessage; ChokeMessage],
     PeerStreamIterator.StopAsyncIteration).
Proof.
  apply (frame_aligned_reads_yield_every_message
           [[UnchokeMessage; InterestedMessage]; [ChokeMessage]]).
  repeat constructor; try discriminate; simpl; eauto.
Defined.

(** X23: whenever [parse] returns a message other than KeepAlive, the
    buffer held more than four bytes, the length prefix [n] was at least
    1 and at most the buffer's length, and the buffer left is the old one
    without its first [4 + n] bytes (all of it, when it held fewer). *)
Theorem parse_consumes_prefix_plus_four
    (buf buf' : bytes) (msg : Message) :
  PeerStreamIterator.parse buf = (Ok (Some msg), buf') ->
  msg <> KeepAliveMessage ->
  4 < len buf
  /\ 1 <= Codec.unpack (take 4 buf) <= len buf
  /\ buf' = drop (Z.to_nat (4 + Codec.unpack (take 4 buf))) buf.
Proof.
  unfold PeerStreamIterator.parse.
  destruct (len buf >? 4) eqn:H4; [|done].
  rewrite Z.gtb_ltb in H4. apply Z.ltb_lt in H4.
  destruct (Codec.unpack (take 4 buf) =? 0) eqn:H0; [by intros [= <- <-]|].
  apply Z.eqb_neq in H0.
  destruct (len buf >=? Codec.unpack (take 4 buf)) eqn:Hge; [|done].
  apply Z.geb_le in Hge.
  pose proof (be_word_nonneg (take 4 buf)) as Hnn.
  unfold Codec.unpack in *. cbv zeta.
  intros Hp _. split; [done|]. split; [lia|].
  revert Hp.
  unfold PeerStreamIterator.header_length.
  repeat match goal with
         | |- context [if ?c then _ else _] => destruct c
         | |- context [rbind ?d _] => destruct d; simpl
         end; congruence.
Qed.

Lemma parse_consumes_prefix_plus_four_witness :
  PeerStreamIterator.parse [x00; x00; x00; x01; x02; x07]
  = (Ok (Some InterestedMessage), [x07])
  /\ (4 < len [x00; x00; x00; x01; x02; x07]
      /\ 1 <= Codec.unpack (take 4 [x00; x00; x00; x01; x02; x07])
           <= len [x00; x00; x00; x01; x02; x07]
      /\ [x07] = drop (Z.to_nat
                         (4 + Codec.unpack (take 4 [x00; x00; x00; x01; x02; x07])))
                      [x00; x00; x00; x01; x02; x07]).
Proof.
  split; [reflexivity|].
  apply (parse_consumes_prefix_plus_four
           [x00; x00; x00; x01; x02; x07] [x07] InterestedMessage).
  - reflexivity.
  - discriminate.
Defined.

(** ** The session's state set *)

Section SessionState.

Import PeerConnection.

Implicit Types (c : PeerConnection.t) (x y : PeerState.t).

Lemma remove_first_keeps_other (l : list PeerState.t) x y :
  x <> y -> y ∈ l -> y ∈ remove_first (fun z => bool_decide (z = x)) l.
Proof.
  intros Hne. induction l as [|z r IH]; [by inversion 1|].
  intros Hin. simpl. destruct (bool_decide (z = x)) eqn:E.
  - apply bool_decide_eq_true in E. subst z.
    apply elem_of_cons in Hin as [?|?]; [congruence|done].
  - apply elem_of_cons in Hin as [->|?]; [left|right; by apply IH].
Qed.

Lemma remove_first_keeps_second (l : list PeerState.t) x :
  x ∈ remove_first (fun z => bool_decide (z = x)) (l ++ [x; x]).
Proof.
  induction l as [|z r IH]; simpl.
  - rewrite bool_decide_eq_true_2 by done. left.
  - destruct (bool_decide (z = x)).
    + apply elem_of_app. right. left.
    + by right.
Qed.

Lemma has_true x c : has x c = true <-> x ∈ current_state c.
Proof. unfold has. apply bool_decide_eq_true. Qed.

Lemma has_false x c : has x c = false <-> x ∉ current_state c.
Proof. unfold has. apply bool_decide_eq_false. Qed.

Lemma discard_keeps_other x y c :
  x <> y -> y ∈ current_state c -> y ∈ current_state (discard x c).
Proof.
  intros Hne Hin. unfold discard, remove.
  destruct (has x c); [|done]. simpl. by apply remove_first_keeps_other.
Qed.

Lemma append_keeps x y c : y ∈ current_state c -> y ∈ current_state (append x c).
Proof. intros H. simpl. apply elem_of_app. by left. Qed.

Lemma set_manager_state m c : current_state (set_manager m c) = current_state c.
Proof. done. Qed.

Lemma requests_sent_write msg c :
  is_request (Sent (current_state c) msg) = false ->
  requests_sent (write msg c) = requests_sent c.
Proof.
  intros H. unfold requests_sent. simpl.
  rewrite filter_app, filter_cons_False by (by rewrite H).
  by rewrite app_nil_r.
Qed.

(** A message that is not a Piece keeps a state item other than the one
    it removes, and writes no Request. *)
Lemma dispatch_keeps y msg c :
  y ∈ current_state c ->
  (msg = UnchokeMessage -> y <> PeerState.Choked) ->
  (msg = NotInterestedMessage -> y <> PeerState.Interested) ->
  is_piece_message msg = false ->
  y ∈ current_state (snd (dispatch msg c))
  /\ requests_sent (snd (dispatch msg c)) = requests_sent c.
Proof.
  intros Hy Hu Hn Hp. destruct msg; simpl in *; try done.
  - split; [by apply append_keeps|done].
  - split; [|unfold requests_sent; by rewrite discard_writer].
    apply discard_keeps_other; [|done]. intros E. by apply Hu.
  - split; [by apply append_keeps|done].
  - split; [|unfold requests_sent; by rewrite discard_writer].
    apply discard_keeps_other; [|done]. intros E. by apply Hn.
  - destruct (has PeerState.Interested c); simpl; [done|].
    split; [done|]. unfold send_interested. by apply requests_sent_write.
Qed.

(** A Piece message keeps a state item other than PendingRequest and
    writes no Request. *)
Lemma dispatch_piece_keeps y i b d c :
  y ∈ current_state c ->
  y <> PeerState.PendingRequest ->
  y ∈ current_state (snd (dispatch (PieceMessage i b d) c))
  /\ requests_sent (snd (dispatch (PieceMessage i b d) c)) = requests_sent c.
Proof.
  intros Hy Hne. simpl. unfold remove.
  destruct (has PeerState.PendingRequest c); [|done]. simpl.
  destruct (DownloadManager.on_block_complete _ _ _ _ _) as [r m]. simpl.
  split; [|done]. apply remove_first_keeps_other; [congruence|done].
Qed.

Lemma handle_one_no_send now msg c :
  (can_request (snd (dispatch msg c)) = false
   \/ has PeerState.PendingRequest (snd (dispatch msg c)) = true) ->
  snd (handle_one now msg c) = snd (dispatch msg c).
Proof.
  intros H. unfold handle_one.
  destruct (dispatch msg c) as [[[]|e] c1]; simpl in *; [|done].
  destruct H as [->|H]; [done|].
  rewrite H. by destruct (can_request c1).
Qed.

Lemma handle_message_keeps y (skip : Message -> bool) inputs :
  (forall msg c,
      skip msg = false -> y ∈ current_state c ->
      y ∈ current_state (snd (dispatch msg c))
      /\ requests_sent (snd (dispatch msg c)) = requests_sent c) ->
  (forall c, y ∈ current_state c ->
             can_request c = false \/ has PeerState.PendingRequest c = true) ->
  Forall (fun a => skip (message a) = false) inputs ->
  forall c,
    y ∈ current_state c ->
    y ∈ current_state (snd (handle_message inputs c))
    /\ requests_sent (snd (handle_message inputs c)) = requests_sent c.
Proof.
  intros Hd Hgate. induction 1 as [|a rest Ha Hrest IH]; intros c Hy; [done|].
  simpl. set (c0 := set_manager _ c).
  assert (y ∈ current_state c0) as Hy0 by done.
  assert (requests_sent c0 = requests_sent c) as Hr0 by done.
  destruct (has PeerState.Stopped c0); [done|].
  destruct (Hd (message a) c0 Ha Hy0) as [Hy1 Hr1].
  pose proof (handle_one_no_send (at_time a) (message a) c0
                (Hgate _ Hy1)) as Hone.
  destruct (handle_one (at_time a) (message a) c0) as [[[]|e] c1];
    simpl in Hone; subst c1.
  - destruct (IH _ Hy1) as [Hy2 Hr2]. split; [done|]. congruence.
  - simpl. split; [done|]. congruence.
Qed.

End SessionState.

(** X24: the state set is a list, and Unchoke removes one occurrence of
    Choked: after two Choke messages a single Unchoke leaves the session
    choked, so it still cannot request. *)
Theorem unchoke_undoes_one_choke (c : PeerConnection.t) :
  PeerConnection.can_request
    (snd (PeerConnection.dispatch UnchokeMessage
            (snd (PeerConnection.dispatch ChokeMessage
                    (snd (PeerConnection.dispatch ChokeMessage c))))))
  = false.
Proof.
  unfold PeerConnection.can_request.
  assert (PeerConnection.has PeerState.Choked
            (snd (PeerConnection.dispatch UnchokeMessage
                    (snd (PeerConnection.dispatch ChokeMessage
                            (snd (PeerConnection.dispatch ChokeMessage c))))))
          = true) as ->; [|done].
  apply has_true. simpl.
  unfold PeerConnection.discard, PeerConnection.remove.
  destruct (PeerConnection.has PeerState.Choked _) eqn:E; simpl.
  - rewrite <- app_assoc. apply remove_first_keeps_second.
  - apply has_false in E. simpl in E. exfalso. apply E.
    apply elem_of_app. right. left.
Qed.

(** X25: a Piece message that arrives while PendingRequest is not in the
    state set -- a block the session did not ask for -- raises
    [ValueError] from [list.remove]; the block is not handed to the
    manager and the session is left as it was. *)
Theorem unsolicited_piece_raises
    (now i begin : Z) (block : bytes) (c : PeerConnection.t) :
  PeerState.PendingRequest ∉ PeerConnection.current_state c ->
  PeerConnection.handle_one now (PieceMessage i begin block) c
  = (Raise ValueError, c).
Proof.
  intros H. apply has_false in H.
  unfold PeerConnection.handle_one. simpl.
  unfold PeerConnection.remove. by rewrite H.
Qed.

Lemma unsolicited_piece_raises_witness :
  (PeerState.PendingRequest
     ∉ PeerConnection.current_state (PeerConnection.start "peer" demo_seeded))
  /\ PeerConnection.handle_one 5 (PieceMessage 0 0 ab)
       (PeerConnection.start "peer" demo_seeded)
     = (Raise ValueError, PeerConnection.start "peer" demo_seeded).
Proof.
  assert (H : PeerState.PendingRequest
                ∉ PeerConnection.current_state
                    (PeerConnection.start "peer" demo_seeded)).
  { simpl. rewrite !elem_of_cons, elem_of_nil.
    intros [?|[?|[]]]; discriminate. }
  split; [exact H|].
  exact (unsolicited_piece_raises 5 0 0 ab
           (PeerConnection.start "peer" demo_seeded) H).
Defined.

(** X26: while PendingRequest is in the state set and no Piece message
    arrives, the session writes no Request, whatever else arrives, and
    PendingRequest stays: only a Piece message clears it. *)
Theorem pending_request_blocks_requests
    (inputs : list PeerConnection.arrival) (c : PeerConnection.t) :
  PeerState.PendingRequest ∈ PeerConnection.current_state c ->
  Forall (fun a => is_piece_message (PeerConnection.message a) = false) inputs ->
  PeerState.PendingRequest
    ∈ PeerConnection.current_state (snd (PeerConnection.handle_message inputs c))
  /\ requests_sent (snd (PeerConnection.handle_message inputs c))
     = requests_sent c.
Proof.
  intros Hy Hin.
  apply (handle_message_keeps PeerState.PendingRequest is_piece_message);
    try done.
  - intros msg c0 Hm Hy0. apply dispatch_keeps; try done.
  - intros c0 Hy0. right. by apply has_true.
Qed.

Lemma pending_request_blocks_requests_witness :
  PeerState.PendingRequest
    ∈ PeerConnection.current_state
        (PeerConnection.mk [PeerState.Interested; PeerState.PendingRequest]
                           "peer" demo_requested_first [])
  /\ Forall (fun a => is_piece_message (PeerConnection.message a) = false)
            [arrives 1 ChokeMessage; arrives 2 UnchokeMessage]
  /\ (PeerState.PendingRequest
        ∈ PeerConnection.current_state
            (snd (PeerConnection.handle_message
                    [arrives 1 ChokeMessage; arrives 2 UnchokeMessage]
                    (PeerConnection.mk
                       [PeerState.Interested; PeerState.PendingRequest]
                       "peer" demo_requested_first [])))
      /\ requests_sent
           (snd (PeerConnection.handle_message
                   [arrives 1 ChokeMessage; arrives 2 UnchokeMessage]
                   (PeerConnection.mk
                      [PeerState.Interested; PeerState.PendingRequest]
                      "peer" demo_requested_first [])))
         = requests_sent
             (PeerConnection.mk [PeerState.Interested; PeerState.PendingRequest]
                                "peer" demo_requested_first [])).
Proof.
  assert (H1 : PeerState.PendingRequest
                 ∈ PeerConnection.current_state
                     (PeerConnection.mk
                        [PeerState.Interested; PeerState.PendingRequest]
                        "peer" demo_requested_first []))
    by (simpl; right; left).
  assert (H2 : Forall (fun a => is_piece_message (PeerConnection.message a) = false)
                      [arrives 1 ChokeMessage; arrives 2 UnchokeMessage])
    by (repeat constructor).
  split; [exact H1|]. split; [exact H2|].
  exact (pending_request_blocks_requests _ _ H1 H2).
Defined.

(** X27: a session that is choked writes no Request until an Unchoke
    message arrives, whatever else arrives and whatever the manager
    holds.  A session starts choked, so a peer that never sends Unchoke
    is never sent a Request. *)
Theorem choked_session_requests_nothing
    (inputs : list PeerConnection.arrival) (c : PeerConnection.t) :
  PeerState.Choked ∈ PeerConnection.current_state c ->
  Forall (fun a => is_unchoke_message (PeerConnection.message a) = false) inputs ->
  PeerState.Choked
    ∈ PeerConnection.current_state (snd (PeerConnection.handle_message inputs c))
  /\ requests_sent (snd (PeerConnection.handle_message inputs c))
     = requests_sent c.
Proof.
  intros Hy Hin.
  apply (handle_message_keeps PeerState.Choked is_unchoke_message); try done.
  - intros msg c0 Hm Hy0.
    destruct (is_piece_message msg) eqn:Hp.
    + destruct msg; try discriminate. by apply dispatch_piece_keeps.
    + apply dispatch_keeps; try done. intros ->. discriminate.
  - intros c0 Hy0. left. unfold PeerConnection.can_request.
    apply has_true in Hy0. by rewrite Hy0.
Qed.

Lemma choked_session_requests_nothing_witness :
  PeerState.Choked
    ∈ PeerConnection.current_state (PeerConnection.start "peer" demo_fresh)
  /\ Forall (fun a => is_unchoke_message (PeerConnection.message a) = false)
            [arrives 0 (BitFieldMessage [true; true]);
             arrives 1 InterestedMessage]
  /\ (PeerState.Choked
        ∈ PeerConnection.current_state
            (snd (PeerConnection.handle_message
                    [arrives 0 (BitFieldMessage [true; true]);
                     arrives 1 InterestedMessage]
                    (PeerConnection.start "peer" demo_fresh)))
      /\ requests_sent
           (snd (PeerConnection.handle_message
                   [arrives 0 (BitFieldMessage [true; true]);
                    arrives 1 InterestedMessage]
                   (PeerConnection.start "peer" demo_fresh)))
         = requests_sent (PeerConnection.start "peer" demo_fresh)).
Proof.
  assert (H1 : PeerState.Choked
                 ∈ PeerConnection.current_state
                     (PeerConnection.start "peer" demo_fresh))
    by (simpl; right; left).
  assert (H2 : Forall (fun a => is_unchoke_message (PeerConnection.message a) = false)
                      [arrives 0 (BitFieldMessage [true; true]);
                       arrives 1 InterestedMessage])
    by (repeat constructor).
  split; [exact H1|]. split; [exact H2|].
  exact (choked_session_requests_nothing _ _ H1 H2).
Defined.

(** ** Further effects of the manager and the session *)

Section MoreEffects.

Import DownloadManager.

Lemma remove_first_split {A} (P : A -> bool) (l : list A) :
  (Forall (fun y => P y = false) l /\ remove_first P l = l)
  \/ exists pre x post,
      l = pre ++ x :: post
      /\ Forall (fun y => P y = false) pre
      /\ P x = true
      /\ remove_first P l = pre ++ post.
Proof.
  induction l as [|y r IH]; simpl; [left; by split|].
  destruct (P y) eqn:E.
  - right. exists [], y, r. by repeat split.
  - destruct IH as [[Hall ->]|(pre & x & post & -> & Hpre & Hx & ->)].
    + left. split; [by constructor|done].
    + right. exists (y :: pre), x, post.
      split; [done|]. split; [by constructor|done].
Qed.

Lemma missing_scan_split bf ps p rest :
  missing_scan bf ps = Ok (Some (p, rest)) ->
  exists pre post,
    ps = pre ++ p :: post
    /\ rest = pre ++ post
    /\ Forall (fun q => getitem bf (Piece.index q) = Ok false) pre
    /\ getitem bf (Piece.index p) = Ok true.
Proof.
  revert p rest. induction ps as [|x r IH]; intros p rest; simpl; [done|].
  destruct (getitem bf (Piece.index x)) as [[|]|e] eqn:Hbit; simpl; try done.
  - intros [= <- <-]. by exists [], r.
  - destruct (missing_scan bf r) as [[[q rest']|]|e]; simpl; try done.
    intros [= <- <-].
    destruct (IH q rest' eq_refl) as (pre & post & -> & -> & Hpre & Hq).
    exists (x :: pre), post. split; [done|]. split; [done|].
    split; [by constructor|done].
Qed.

Lemma ongoing_scan_indices bf ps b ps' :
  ongoing_scan bf ps = Ok (Some (b, ps')) ->
  map Piece.index ps' = map Piece.index ps.
Proof. intros H. by apply ongoing_scan_spec in H as [? _]. Qed.

End MoreEffects.

(** X28: [remove_from_pending_pieces] touches [pending_blocks] only, and
    removes at most one request: the first one, in insertion order, for
    the given piece index and offset.  Later requests for the same block
    stay, and without a matching request nothing changes. *)
Theorem remove_from_pending_removes_first_match
    (i o : Z) (m : DownloadManager.t) :
  DownloadManager.remove_from_pending_pieces i o m
  = DownloadManager.set_pending_blocks
      (DownloadManager.pending_blocks
         (DownloadManager.remove_from_pending_pieces i o m)) m
  /\ ((Forall (fun r => DownloadManager.is_request_for i o r = false)
              (DownloadManager.pending_blocks m)
       /\ DownloadManager.pending_blocks
            (DownloadManager.remove_from_pending_pieces i o m)
          = DownloadManager.pending_blocks m)
      \/ exists pre r post,
          DownloadManager.pending_blocks m = pre ++ r :: post
          /\ Forall (fun x => DownloadManager.is_request_for i o x = false) pre
          /\ Block.piece (PendingRequest.block r) = i
          /\ Block.offset (PendingRequest.block r) = o
          /\ DownloadManager.pending_blocks
               (DownloadManager.remove_from_pending_pieces i o m)
             = pre ++ post).
Proof.
  split; [done|]. simpl.
  destruct (remove_first_split (DownloadManager.is_request_for i o)
              (DownloadManager.pending_blocks m))
    as [H|(pre & r & post & Hl & Hpre & Hr & Hrem)]; [by left|].
  right. exists pre, r, post.
  unfold DownloadManager.is_request_for in Hr.
  apply andb_prop in Hr as [Hp Ho].
  apply Z.eqb_eq in Hp, Ho. done.
Qed.

(** X29: [next_request] moves at most one piece, and only from
    [missing_pieces] to the end of [ongoing_pieces]: either
    [missing_pieces] and the indices in [ongoing_pieces] are as before,
    or the piece moved is the first missing piece, in order, whose index
    is set in the peer's bitfield, and the result is that piece's own
    next request. *)
Theorem next_request_moves_first_missing_piece
    (now : Z) (peer_id : string) (m : DownloadManager.t) :
  (DownloadManager.missing_pieces
     (snd (DownloadManager.next_request now peer_id m))
   = DownloadManager.missing_pieces m
   /\ map Piece.index
        (DownloadManager.ongoing_pieces
           (snd (DownloadManager.next_request now peer_id m)))
      = map Piece.index (DownloadManager.ongoing_pieces m))
  \/ exists bf pre p post,
      DownloadManager.peers m !! peer_id = Some bf
      /\ DownloadManager.missing_pieces m = pre ++ p :: post
      /\ Forall (fun q => getitem bf (Piece.index q) = Ok false) pre
      /\ getitem bf (Piece.index p) = Ok true
      /\ DownloadManager.missing_pieces
           (snd (DownloadManager.next_request now peer_id m))
         = pre ++ post
      /\ DownloadManager.ongoing_pieces
           (snd (DownloadManager.next_request now peer_id m))
         = DownloadManager.ongoing_pieces m ++ [snd (Piece.next_request p)]
      /\ fst (DownloadManager.next_request now peer_id m)
         = Ok (fst (Piece.next_request p)).
Proof.
  unfold DownloadManager.next_request.
  destruct (DownloadManager.peers m !! peer_id) as [bf|] eqn:Hpeer;
    [|by left].
  destruct (DownloadManager._expired_request now peer_id m) as [[?|]|?];
    try (by left).
  unfold DownloadManager._next_ongoing, DownloadManager.peer_bitfield.
  rewrite Hpeer.
  destruct (DownloadManager.ongoing_scan bf (DownloadManager.ongoing_pieces m))
    as [[[blk ps']|]|?] eqn:E; [| |by left].
  - left. simpl. split; [done|]. by apply (ongoing_scan_indices bf _ blk).
  - unfold DownloadManager._next_missing, DownloadManager.peer_bitfield.
    rewrite Hpeer.
    destruct (DownloadManager.missing_scan bf (DownloadManager.missing_pieces m))
      as [[[piece rest]|]|?] eqn:Em; [|by left|by left].
    apply missing_scan_split in Em as (pre & post & Hm & -> & Hpre & Hbit).
    right. exists bf, pre, piece, post.
    destruct (Piece.next_request piece) as [blk piece']. done.
Qed.

(** X30: handling one message writes at most one Request, and when it
    writes one, PendingRequest is in the state set afterwards; with X26
    this makes one Request per session outstanding at a time. *)
Theorem handle_one_sends_at_most_one_request
    (now : Z) (msg : Message) (c : PeerConnection.t) :
  requests_sent (snd (PeerConnection.handle_one now msg c)) = requests_sent c
  \/ exists st i b l,
      requests_sent (snd (PeerConnection.handle_one now msg c))
      = requests_sent c ++ [PeerConnection.Sent st (RequestMessage i b l)]
      /\ PeerState.PendingRequest
           ∈ PeerConnection.current_state
               (snd (PeerConnection.handle_one now msg c)).
Proof.
  assert (Hd : requests_sent (snd (PeerConnection.dispatch msg c))
               = requests_sent c).
  { destruct (is_piece_message msg) eqn:Hp.
    - destruct msg; try discriminate. simpl.
      unfold PeerConnection.remove.
      destruct (PeerConnection.has PeerState.PendingRequest c); [|done].
      simpl. by destruct (DownloadManager.on_block_complete _ _ _ _ _).
    - destruct msg; simpl in *; try done.
      + unfold requests_sent. by rewrite discard_writer.
      + unfold requests_sent. by rewrite discard_writer.
      + destruct (PeerConnection.has PeerState.Interested c); simpl; [done|].
        unfold PeerConnection.send_interested. by apply requests_sent_write. }
  unfold PeerConnection.handle_one.
  destruct (PeerConnection.dispatch msg c) as [[[]|e] c1]; simpl in *;
    [|by left].
  destruct (PeerConnection.can_request c1); [|by left].
  destruct (PeerConnection.has PeerState.PendingRequest c1); [by left|].
  unfold PeerConnection.send_request. simpl.
  destruct (DownloadManager.next_request now (PeerConnection.remote_id c1)
              (PeerConnection.download_manager c1)) as [[[blk|]|e] m'];
    simpl; [|by left|by left].
  right.
  exists (PeerConnection.current_state c1 ++ [PeerState.PendingRequest]),
         (Block.piece blk), (Block.offset blk), (Block.length blk).
  split.
  - unfold requests_sent. simpl.
    rewrite filter_app, filter_cons_True by done.
    fold (requests_sent c1). by rewrite Hd.
  - apply elem_of_app. right. left.
Qed.
